(** * cobaltclient: the novaclient extension for the Cobalt API

    A shallow embedding of [cobalt_python_novaclient_ext/__init__.py]:
    the argument marshalling of the [do_*] subcommand handlers and the
    request shaping of [CoServerManager].

    Python [str] values are byte strings and are modelled by [string];
    dictionaries are finite maps ([gmap]); code that raises or talks to the
    REST client runs in a state-and-exception monad over a [world] that
    records every request issued. *)

From Stdlib Require Import ZArith NArith Ascii.
From Equations Require Import Equations.
From stdpp Require Import gmap strings list.

(** ** Python string primitives

    Only one-character separators occur in the source ([","], ["="], [";"],
    ["."]), so separators are characters. *)

Module PyStr.

(** [sep in s] *)
Fixpoint contains (sep : ascii) (s : string) : bool :=
  match s with
  | EmptyString => false
  | String c s' => if Ascii.eqb c sep then true else contains sep s'
  end.

(** [s.partition(sep)]: the text before the first separator, the separator
    itself (empty when there is none) and the text after it. *)
Fixpoint partition (sep : ascii) (s : string) : string * string * string :=
  match s with
  | EmptyString => (EmptyString, EmptyString, EmptyString)
  | String c s' =>
      if Ascii.eqb c sep then (EmptyString, String sep EmptyString, s')
      else let '(h, m, t) := partition sep s' in (String c h, m, t)
  end.

(** [s.split(sep)] *)
Fixpoint split (sep : ascii) (s : string) : list string :=
  match s with
  | EmptyString => [EmptyString]
  | String c s' =>
      if Ascii.eqb c sep then EmptyString :: split sep s'
      else match split sep s' with
           | h :: t => String c h :: t
           | [] => [String c EmptyString]
           end
  end.

(** [s.split(sep, maxsplit)] *)
Fixpoint splitn (maxsplit : nat) (sep : ascii) (s : string) : list string :=
  match s with
  | EmptyString => [EmptyString]
  | String c s' =>
      match maxsplit with
      | O => [s]
      | S m =>
          if Ascii.eqb c sep then EmptyString :: splitn m sep s'
          else match splitn maxsplit sep s' with
               | h :: t => String c h :: t
               | [] => [String c EmptyString]
               end
      end
  end.

(** [sep.join(l)] *)
Fixpoint join (sep : string) (l : list string) : string :=
  match l with
  | [] => EmptyString
  | [x] => x
  | x :: rest => x +:+ sep +:+ join sep rest
  end.

(** Truth value of a string: [bool(s)]. *)
Definition truthy (s : string) : bool :=
  match s with EmptyString => false | _ => true end.

(** [needle in hay] for two strings (substring test). *)
Fixpoint substring_of (needle hay : string) : bool :=
  String.prefix needle hay ||
  match hay with
  | EmptyString => false
  | String _ hay' => substring_of needle hay'
  end.

End PyStr.

(** ** Values, exceptions

    [pyval] is the JSON-shaped fragment of Python values that travels
    through request bodies and responses. *)

#[warnings="-register-all"]
Inductive pyval : Type :=
| PNone
| PBool (b : bool)
| PInt (z : Z)
| PStr (s : string)
| PList (l : list pyval)
| PDict (d : gmap string pyval).

Inductive exn : Type :=
| CommandError (msg : string)     (* novaclient.exceptions.CommandError *)
| ValueError
| KeyError (key : string)
| TypeError
| AttributeError (name : string)
| IOError (path : string)
| ClientException (code : Z).     (* any failure reported by the REST layer *)

(** Fallible pure code: [inl e] is "raises e". *)
Abbreviation result A := (exn + A)%type.

Definition rbind {A B} (r : result A) (k : A -> result B) : result B :=
  match r with
  | inl e => inl e
  | inr a => k a
  end.

(** A [for] loop whose body may raise: the first exception ends the loop. *)
Fixpoint rmap {A B} (f : A -> result B) (l : list A) : result (list B) :=
  match l with
  | [] => inr []
  | x :: l' =>
      rbind (f x) (fun y => rbind (rmap f l') (fun ys => inr (y :: ys)))
  end.

Fixpoint rfold {A S} (f : S -> A -> result S) (l : list A) (s : S) : result S :=
  match l with
  | [] => inr s
  | x :: l' => rbind (f s x) (rfold f l')
  end.

(** ** [base64.b64encode] and [unicode.encode('utf-8')] *)

Module Codec.

Definition b64_alphabet : string :=
  "ABCDEFGHIJKLMNOPQRSTUVWXYZabcdefghijklmnopqrstuvwxyz0123456789+/".

Definition b64_char (n : N) : ascii :=
  match String.get (N.to_nat n) b64_alphabet with
  | Some c => c
  | None => "="%char
  end.

Definition sextet (word : N) (shift : N) : ascii :=
  b64_char (N.land (N.shiftr word shift) 63).

Fixpoint b64encode (s : string) : string :=
  match s with
  | EmptyString => EmptyString
  | String a EmptyString =>
      let w := N.shiftl (N_of_ascii a) 16 in
      String (sextet w 18) (String (sextet w 12) "==")
  | String a (String b EmptyString) =>
      let w := N.lor (N.shiftl (N_of_ascii a) 16) (N.shiftl (N_of_ascii b) 8) in
      String (sextet w 18) (String (sextet w 12) (String (sextet w 6) "="))
  | String a (String b (String c rest)) =>
      let w := N.lor (N.lor (N.shiftl (N_of_ascii a) 16)
                            (N.shiftl (N_of_ascii b) 8)) (N_of_ascii c) in
      String (sextet w 18) (String (sextet w 12)
        (String (sextet w 6) (String (sextet w 0) (b64encode rest))))
  end.

Definition byte (n : N) : ascii := ascii_of_N (N.land n 255).

(** One code point as UTF-8. *)
Definition utf8_point (c : N) : string :=
  if (c <? 128)%N then String (byte c) EmptyString
  else if (c <? 2048)%N then
    String (byte (N.lor 192 (N.shiftr c 6)))
      (String (byte (N.lor 128 (N.land c 63))) EmptyString)
  else if (c <? 65536)%N then
    String (byte (N.lor 224 (N.shiftr c 12)))
      (String (byte (N.lor 128 (N.land (N.shiftr c 6) 63)))
        (String (byte (N.lor 128 (N.land c 63))) EmptyString))
  else
    String (byte (N.lor 240 (N.shiftr c 18)))
      (String (byte (N.lor 128 (N.land (N.shiftr c 12) 63)))
        (String (byte (N.lor 128 (N.land (N.shiftr c 6) 63)))
          (String (byte (N.lor 128 (N.land c 63))) EmptyString))).

Fixpoint utf8_encode (u : list N) : string :=
  match u with
  | [] => EmptyString
  | c :: u' => utf8_point c +:+ utf8_encode u'
  end.

End Codec.

(** [d[k]]: a missing key raises [KeyError]. *)
Definition dict_get {V} (d : gmap string V) (k : string) : result V :=
  match d !! k with
  | Some v => inr v
  | None => inl (KeyError k)
  end.

(** ** [parse_nics_arg] *)

Definition nic_err_msg (nic_str : string) : string :=
  "Invalid nic argument '" +:+ nic_str +:+
  "'. Nic arguments must be of the form --nic <net-id=net-uuid,v4-fixed-ip=ip-addr,port-id=port-uuid>, with at minimum net-id or port-id specified.".

Definition nic_info_init : gmap string string :=
  <["net-id" := EmptyString]> (<["v4-fixed-ip" := EmptyString]> (<["port-id" := EmptyString]> ∅)).

(** Body of the inner loop, for one [kv_str]. Unpacking [k, v] from a split
    that has no second element is the [ValueError] the source catches. *)
Definition parse_nic_kv (err_msg : string) (nic_info : gmap string string)
    (kv_str : string) : result (gmap string string) :=
  match PyStr.splitn 1 "=" kv_str with
  | [k; v] =>
      if decide (is_Some (nic_info !! k)) then inr (<[k := v]> nic_info)
      else inl (CommandError err_msg)
  | _ => inl (CommandError err_msg)
  end.

(** Body of the outer loop, for one [nic_str]. *)
Definition parse_nic (nic_str : string) : result (gmap string string) :=
  let err_msg := nic_err_msg nic_str in
  rbind (rfold (parse_nic_kv err_msg) (PyStr.split "," nic_str) nic_info_init)
    (fun nic_info =>
  rbind (dict_get nic_info "net-id") (fun net_id =>
  rbind (dict_get nic_info "port-id") (fun port_id =>
    if negb (PyStr.truthy net_id) && negb (PyStr.truthy port_id)
    then inl (CommandError err_msg)
    else inr nic_info))).

Definition parse_nics_arg (arg_nics : list string)
    : result (list (gmap string string)) :=
  rmap parse_nic arg_nics.

(** ** Guest parameters and scheduler hints of [do_live_image_start] *)

(** The [for param in args.params] loop. [str.split] never returns an empty
    list, so the [len(components) > 0] test always passes. *)
Definition add_guest_param (guest_params : gmap string string) (param : string)
    : gmap string string :=
  let components := PyStr.split "=" param in
  match components with
  | c0 :: rest => <[c0 := PyStr.join "=" rest]> guest_params
  | [] => guest_params
  end.

Definition guest_params_of (params : list string) : gmap string string :=
  foldl add_guest_param ∅ params.

(** A scheduler hint is a string, or a list once its key was repeated. *)
Inductive hint_value : Type :=
| HintStr (s : string)
| HintList (l : list string).

(** Body of the [for hint in args._scheduler_hints] loop. *)
Definition add_hint (scheduler_hints : gmap string hint_value) (hint : string)
    : gmap string hint_value :=
  let '(key, _sep, value) := PyStr.partition "=" hint in
  match scheduler_hints !! key with
  | Some old =>
      let as_list :=
        match old with
        | HintStr s => [s]          (* isinstance(..., basestring) *)
        | HintList l => l
        end in
      <[key := HintList (as_list ++ [value])]> scheduler_hints
  | None => <[key := HintStr value]> scheduler_hints
  end.

Definition scheduler_hints_of (hints : list string) : gmap string hint_value :=
  match hints with
  | [] => ∅                          (* if args._scheduler_hints: *)
  | _ => foldl add_hint ∅ hints
  end.

Definition hint_to_py (h : hint_value) : pyval :=
  match h with
  | HintStr s => PStr s
  | HintList l => PList (PStr <$> l)
  end.

(** ** The REST client and the state of one CLI run *)

(** What goes over the wire. [ServerAction] is novaclient's
    [ServerManager._action(action, server, info)], a POST of [{action: info}]
    to the server's action URL. *)
Inductive request : Type :=
| HttpGet (url : string)
| HttpPost (url : string) (body : pyval)
| ServerAction (action : string) (server_id : string) (info : option pyval).

(** A server resource: the text [base.getid] gives for it in a URL, and the
    attribute dictionary [_info]. *)
Record CoServer : Type := mkCoServer {
  server_id : string;
  _info : gmap string pyval;
}.

Inductive output : Type :=
| OutDict (d : gmap string pyval)         (* utils.print_dict *)
| OutList (l : list CoServer)             (* utils.print_list *)
| OutLine (s : string).                   (* print *)

Record world : Type := mkWorld {
  http_log : list request;                (* requests issued, oldest first *)
  capabilities : option (list string);    (* the manager's attribute, if set *)
  files : gmap string string;             (* file system: path -> contents *)
  stdout : list output;
}.

Definition is_action (r : request) : bool :=
  match r with
  | ServerAction _ _ _ => true
  | _ => false
  end.

(** Requests that are not plain lookups: actions and POSTs. *)
Definition is_call (r : request) : bool :=
  match r with
  | HttpGet _ => false
  | _ => true
  end.

Definition count_requests (p : request -> bool) (w : world) : nat :=
  length (filter (fun r => p r = true) (http_log w)).

(** Computations that read and change the [world] and may raise. The world
    reached when an exception is raised is kept. *)
Definition M (A : Type) : Type := world -> result A * world.

Definition ret {A} (a : A) : M A := fun w => (inr a, w).
Definition raise {A} (e : exn) : M A := fun w => (inl e, w).
Definition bind {A B} (c : M A) (k : A -> M B) : M B :=
  fun w => match c w with
           | (inl e, w') => (inl e, w')
           | (inr a, w') => k a w'
           end.
Definition lift {A} (r : result A) : M A := fun w => (r, w).

Notation "'do' x <- c ; k" := (bind c (fun x => k))
  (at level 10, x name, c at level 100, k at level 200,
   format "'[v' 'do'  x  <-  c ; '/' k ']'").

(** [try: c except: h] with a bare [except]. *)
Definition try_except {A} (c : M A) (h : M A) : M A :=
  fun w => match c w with
           | (inl _, w') => h w'
           | (inr a, w') => (inr a, w')
           end.

(** List comprehension / [for] loop with effects. *)
Fixpoint mmap {A B} (f : A -> M B) (l : list A) : M (list B) :=
  match l with
  | [] => ret []
  | x :: l' => do y <- f x; do ys <- mmap f l'; ret (y :: ys)
  end.

Fixpoint mfor {A} (l : list A) (body : A -> M unit) : M unit :=
  match l with
  | [] => ret tt
  | x :: l' => do _ <- body x; mfor l' body
  end.

Definition print (o : output) : M unit :=
  fun w => (inr tt, mkWorld (http_log w) (capabilities w) (files w) (stdout w ++ [o])).

Definition read_file (path : string) : M string :=
  fun w => match files w !! path with
           | Some contents => (inr contents, w)
           | None => (inl (IOError path), w)
           end.

(** A search for a resource, as novaclient's [find_resource] and the shell
    helpers built on it perform it: a series of GET requests, each chosen
    from the answers to the earlier ones (by id, by name, ...), until the
    resource's description is found or the search gives up. *)
Inductive search (A : Type) : Type :=
| Found (a : A)
| GaveUp (e : exn)
| Ask (url : string) (next : result pyval -> search A).

Arguments Found {A} a.
Arguments GaveUp {A} e.
Arguments Ask {A} url next.

Definition get_capabilities : M (option (list string)) :=
  fun w => (inr (capabilities w), w).

Definition set_capabilities (caps : list string) : M unit :=
  fun w => (inr tt, mkWorld (http_log w) (Some caps) (files w) (stdout w)).

(** ** Dynamic operations on [pyval] *)

(** [bool(v)] *)
Definition py_truthy (v : pyval) : bool :=
  match v with
  | PNone => false
  | PBool b => b
  | PInt z => negb (z =? 0)%Z
  | PStr s => PyStr.truthy s
  | PList l => match l with [] => false | _ => true end
  | PDict d => negb (bool_decide (d = ∅))
  end.

(** [v[k]] for a string key [k]: only dictionaries can be indexed so. *)
Definition py_getitem (v : pyval) (k : string) : result pyval :=
  match v with
  | PDict d => dict_get d k
  | _ => inl TypeError
  end.

(** [v.get(k, dflt)] *)
Definition py_get (v : pyval) (k : string) (dflt : pyval) : result pyval :=
  match v with
  | PDict d => inr (default dflt (d !! k))
  | _ => inl (AttributeError "get")
  end.

(** [x in container] for a string [x]. *)
Definition py_in (x : string) (container : pyval) : result bool :=
  match container with
  | PList l =>
      inr (existsb (fun v => match v with
                             | PStr s => bool_decide (s = x)
                             | _ => false
                             end) l)
  | PDict d => inr (bool_decide (is_Some (d !! x)))
  | PStr s => inr (PyStr.substring_of x s)
  | _ => inl TypeError
  end.

Definition opt_str (o : option string) : pyval :=
  match o with
  | Some s => PStr s
  | None => PNone
  end.

(** Truth value of an optional command-line string. *)
Definition opt_truthy (o : option string) : bool :=
  match o with
  | Some s => PyStr.truthy s
  | None => false
  end.

(** ** Capability tables *)

Definition CAPABILITIES : gmap string (list string) :=
  list_to_map
    [("user-data", ["user-data"]);
     ("launch-name", ["launch-name"]);
     ("security-groups", ["security-groups"]);
     ("num-instances", ["num-instances"]);
     ("availability-zone", ["availability-zone"]);
     ("bless-name", ["bless-name"]);
     ("launch-key", ["launch-key"]);
     ("import-export", ["import-export"]);
     ("scheduler-hints", ["scheduler-hints"]);
     ("install-policy", ["install-policy"]);
     ("get-policy", ["get-policy"]);
     ("supports-volumes", ["supports-volumes"]);
     ("launch-nics", ["launch-nics"])].

Definition CAPS_HELP : gmap string string :=
  list_to_map
    [("user-data", "Live-image-start will honor --user-data.");
     ("launch-name", "Live-image-start will honor --name.");
     ("security-groups", "Live-image-start will honor --security-groups.");
     ("num-instances", "Live-image-start will honor --num-instances.");
     ("availability-zone", "Live-image-start will honor --availability-zone.");
     ("bless-name", "Live-image-create will honor --name.");
     ("launch-key", "Live-image-start will honor --key-name.");
     ("import-export", "Live-image-import/export supported by API.");
     ("scheduler-hints", "Live-image-start will honor --hint.");
     ("install-policy", "Install-policy supported by API.");
     ("get-policy", "Get-policy supported by API.");
     ("supports-volumes",
      "Instances with volumes attached (boot or hotplug) supported for live-image-*.");
     ("launch-nics", "Live-image-start will honor --nic")].

(** [d.keys()]; like Python's, the order is that of the representation. *)
Definition keys {V} (d : gmap string V) : list string := (map_to_list d).*1.

(** The list comprehension of [setup_capabilities], for the value found
    under ['capabilities'] in the server's answer. *)
Definition capability_holds (api_caps : pyval) (cap : string) : result bool :=
  rbind (dict_get CAPABILITIES cap) (fun deps =>
  rbind (rmap (fun api_req => py_in api_req api_caps) deps) (fun checks =>
  inr (forallb (fun b => b) checks))).

Fixpoint rfilter {A} (p : A -> result bool) (l : list A) : result (list A) :=
  match l with
  | [] => inr []
  | x :: l' =>
      rbind (p x) (fun keep =>
      rbind (rfilter p l') (fun rest =>
      inr (if keep then x :: rest else rest)))
  end.

Definition compute_capabilities (api_caps : pyval) : result (list string) :=
  rfilter (capability_holds api_caps) (keys CAPABILITIES).

(** ** Request shaping of [CoServerManager.start_live_image] *)

Inductive user_data_arg : Type :=
| UDNone
| UDFile (contents : string)       (* an object with a [read] method *)
| UDUnicode (text : list N)       (* a [unicode] string, as code points *)
| UDStr (s : string).             (* a [str] *)

(** [if user_data:] -- a file object is true whatever it contains. *)
Definition user_data_truthy (user_data : user_data_arg) : bool :=
  match user_data with
  | UDNone => false
  | UDFile _ => true
  | UDUnicode text => match text with [] => false | _ => true end
  | UDStr s => PyStr.truthy s
  end.

Definition real_user_data (user_data : user_data_arg) : string :=
  match user_data with
  | UDFile contents => contents               (* user_data.read() *)
  | UDUnicode text => Codec.utf8_encode text  (* user_data.encode('utf-8') *)
  | UDStr s => s
  | UDNone => EmptyString
  end.

(** [nic_info.get(k)] is true: present and not empty. *)
Definition nic_field (nic_info : gmap string string) (k : string) : option string :=
  match nic_info !! k with
  | Some v => if PyStr.truthy v then Some v else None
  | None => None
  end.

Definition net_data_of (nic_info : gmap string string) : gmap string pyval :=
  let net_data : gmap string pyval := ∅ in
  let net_data :=
    match nic_field nic_info "net-id" with
    | Some v => <["uuid" := PStr v]> net_data
    | None => net_data
    end in
  let net_data :=
    match nic_field nic_info "v4-fixed-ip" with
    | Some v => <["fixed_ip" := PStr v]> net_data
    | None => net_data
    end in
  let net_data :=
    match nic_field nic_info "port-id" with
    | Some v => <["port" := PStr v]> net_data
    | None => net_data
    end in
  net_data.

(** The [params] dictionary sent with [gc_launch]. *)
Definition launch_params (name : option string) (user_data : user_data_arg)
    (guest_params : gmap string string) (security_groups : option (list string))
    (availability_zone : option string) (num_instances : Z)
    (key_name : option string) (scheduler_hints : gmap string hint_value)
    (networks : option (list (gmap string string))) : gmap string pyval :=
  let params : gmap string pyval :=
    <["guest" := PDict (PStr <$> guest_params)]>
    (<["security_groups" :=
         match security_groups with
         | Some l => PList (PStr <$> l)
         | None => PNone
         end]>
    (<["availability_zone" := opt_str availability_zone]>
    (<["scheduler_hints" := PDict (hint_to_py <$> scheduler_hints)]>
    (<["num_instances" := PInt num_instances]>
    (<["key_name" := opt_str key_name]> ∅))))) in
  let params :=
    match name with
    | Some n => <["name" := PStr n]> params
    | None => params
    end in
  let params :=
    if user_data_truthy user_data then
      <["user_data" := PStr (Codec.b64encode (real_user_data user_data))]> params
    else params in
  let params :=
    match networks with
    | Some nets =>
        let all_net_data := net_data_of <$> nets in
        if (0 <? length all_net_data)%nat
        then <["networks" := PList (PDict <$> all_net_data)]> params
        else params
    | None => params
    end in
  params.

(** ** Parsed command-line arguments

    One record for the [argparse] namespace; each handler reads the
    attributes its [utils.arg] decorators declare. Options without a value
    are [None]. *)

Module Args.
Record t : Type := mk {
  name : option string;
  live_image : option string;
  user_data : option string;
  security_groups : option string;
  availability_zone : option string;
  num_instances : string;
  key_name : option string;
  params : list string;
  _scheduler_hints : list string;
  nics : list string;
  server : string;
  dest : option string;
  output : string;
  data_filename : string;
  override : option string;
  policy_filename : string;
  wait : bool;
  all : bool;
  user : string;
  key_path : option string;
  agent_location : option string;
  agent_version : option string;
  ip : option string;
}.

(** The declared defaults. *)
Definition defaults : t :=
  {| name := None; live_image := None; user_data := None;
     security_groups := None; availability_zone := None;
     num_instances := "1"; key_name := None; params := [];
     _scheduler_hints := []; nics := []; server := EmptyString;
     dest := None; output := EmptyString; data_filename := EmptyString;
     override := None; policy_filename := EmptyString; wait := false;
     all := false; user := "root"; key_path := None;
     agent_location := None; agent_version := None; ip := None |}.

Definition with_nics (args : t) (v : list string) : t :=
  {| name := name args; live_image := live_image args;
     user_data := user_data args; security_groups := security_groups args;
     availability_zone := availability_zone args;
     num_instances := num_instances args; key_name := key_name args;
     params := params args; _scheduler_hints := _scheduler_hints args;
     nics := v; server := server args; dest := dest args;
     output := output args; data_filename := data_filename args;
     override := override args; policy_filename := policy_filename args;
     wait := wait args; all := all args; user := user args;
     key_path := key_path args; agent_location := agent_location args;
     agent_version := agent_version args; ip := ip args |}.
End Args.

(** ** The override merge of [do_live_image_import] *)

Lemma partition_tail_shorter sep s :
  PyStr.contains sep s = true ->
  String.length (PyStr.partition sep s).2 < String.length s.
Proof.
  induction s as [|c s IH]; simpl; [discriminate|].
  destruct (Ascii.eqb c sep); simpl; [lia|].
  intros H. specialize (IH H).
  destruct (PyStr.partition sep s) as [[h m] t]. simpl in *. lia.
Qed.

(** The nested function [override(key, value, data)]. The source updates
    [data] in place; the document is a tree, so the update is returned.
    Recursion follows the dotted path, which gets shorter at each step. *)
Equations? apply_override (key value : string) (data : pyval) : result pyval
    by wf (String.length key) lt :=
  apply_override key value data with Equations.Prop.Logic.inspect (PyStr.contains "." key) := {
    | exist _ true Hdot =>
        rbind (py_getitem data (PyStr.partition "." key).1.1) (fun child =>
        rbind (apply_override (PyStr.partition "." key).2 value child)
          (fun child' =>
        match data with
        | PDict d => inr (PDict (<[(PyStr.partition "." key).1.1 := child']> d))
        | _ => inl TypeError
        end))
    | exist _ false Hdot =>
        rbind (py_getitem data key) (fun old =>
        let value' :=
          match old with
          | PList _ => PList (PStr <$> PyStr.split "," value)
          | _ => PStr value
          end in
        match data with
        | PDict d => inr (PDict (<[key := value']> d))
        | _ => inl TypeError
        end)
  }.
Proof. apply partition_tail_shorter. exact Hdot. Qed.

(** Body of [for override_arg in args.override.split(';')]. *)
Definition apply_override_arg (data : pyval) (override_arg : string)
    : result pyval :=
  match PyStr.splitn 1 "=" override_arg with
  | [key; value] => apply_override key value data
  | _ => inl ValueError
  end.

Definition apply_overrides (override : option string) (data : pyval)
    : result pyval :=
  match override with
  | Some o => rfold apply_override_arg (PyStr.split ";" o) data
  | None => inr data
  end.

(** ** A sample service and environment

    A small concrete instance of what the handlers are parameterised by,
    used to run them. *)

Module Demo.

Definition server_body (ident : string) : pyval :=
  PDict (<["id" := PStr ident]>
        (<["flavor" := PDict (<["id" := PStr "1"]> ∅)]>
        (<["image" := PDict (<["id" := PStr "img"]> ∅)]> ∅))).

(** An entry of a listing by name: the servers and images of the sample
    service are named by their ids. *)
Definition listed (name : string) : pyval :=
  PDict (<["id" := PStr name]> (<["name" := PStr name]> ∅)).

(** A service that knows every server, by id and by name, launches one
    instance per [gc_launch] and advertises two capabilities. *)
Definition api (served : list request) (r : request) : result pyval :=
  match r with
  | HttpGet url =>
      if String.prefix "/servers?name=" url
      then inr (PList [listed (String.substring 14 (String.length url - 14) url)])
      else if String.prefix "/servers/" url
      then inr (server_body (String.substring 9 (String.length url - 9) url))
      else if String.prefix "/images?name=" url
      then inr (PList [listed (String.substring 13 (String.length url - 13) url)])
      else if String.eqb url "/gcinfo"
      then inr (PDict (<["capabilities" :=
                          PList [PStr "user-data"; PStr "launch-nics"]]> ∅))
      else inr (PDict (<["name" := PStr "m1.small"]> ∅))
  | ServerAction action _ _ =>
      if String.eqb action "gc_launch"
      then inr (PList [PDict (<["id" := PStr "new-1"]> ∅)])
      else inr (PList [])
  | HttpPost _ _ => inr (server_body "imported")
  end.

(** A service that is down. *)
Definition api_down (served : list request) (r : request) : result pyval :=
  inl (ClientException 500).

Definition json_load (text : string) : result pyval :=
  if String.eqb text "{}" then inr (PDict ∅)
  else if String.eqb text "<exported live-image>"
  then inr (PDict (<["fields" := PDict (<["display_name" := PStr "vm"]> ∅)]>
                  (<["security_groups" := PList [PStr "default"]]> ∅)))
  else inl ValueError.

Definition json_dumps (v : pyval) : string := "{}".

Definition digit (c : ascii) : option Z :=
  let n := Z.of_N (N_of_ascii c) in
  if ((48 <=? n) && (n <=? 57))%Z then Some (n - 48)%Z else None.

Fixpoint digits (acc : Z) (s : string) : result Z :=
  match s with
  | EmptyString => inr acc
  | String c s' =>
      match digit c with
      | Some d => digits (10 * acc + d)%Z s'
      | None => inl ValueError
      end
  end.

Definition is_blank (c : ascii) : bool :=
  let n := N_of_ascii c in ((9 <=? n) && (n <=? 13) || (n =? 32))%N.

Fixpoint lstrip (s : string) : string :=
  match s with
  | String c s' => if is_blank c then lstrip s' else s
  | EmptyString => EmptyString
  end.

(** The digits at the start of [s], as a number, then only blanks. *)
Fixpoint number (seen : bool) (acc : Z) (s : string) : result Z :=
  match s with
  | EmptyString => if seen then inr acc else inl ValueError
  | String c s' =>
      match digit c with
      | Some d => number true (10 * acc + d)%Z s'
      | None =>
          if seen && String.eqb (lstrip s) EmptyString then inr acc
          else inl ValueError
      end
  end.

(** [int(s)] for a byte string: blanks around an optionally signed run of
    decimal digits. *)
Definition py_int (s : string) : result Z :=
  match lstrip s with
  | String "-"%char s' => rbind (number false 0 s') (fun n => inr (- n)%Z)
  | String "+"%char s' => number false 0 s'
  | s' => number false 0 s'
  end.

Definition all_digits (s : string) : bool :=
  match digits 0 s with
  | inr _ => negb (String.eqb s EmptyString)
  | inl _ => false
  end.

Definition py_str (v : pyval) : string :=
  match v with
  | PStr s => s
  | _ => "None"
  end.

Definition py_repr (info : gmap string pyval) : string := "<CoServer>".

(** Every path can be written to but those under [/proc]. *)
Definition writable (path : string) : bool := negb (String.prefix "/proc/" path).

(** A search in the manner of [find_resource]: by id when the text is a
    number; otherwise, or when no resource has that id, the resources of
    that name are listed and the one found is fetched by its id. *)
Definition by_id (kind collection ident : string)
    (not_found : search (gmap string pyval)) : search (gmap string pyval) :=
  Ask ("/" +:+ collection +:+ "/" +:+ ident)
      (fun answer =>
         match answer with
         | inr (PDict d) => Found d
         | inr _ => GaveUp (AttributeError "items")
         | inl (ClientException code) =>
             if (code =? 404)%Z then not_found
             else GaveUp (ClientException code)
         | inl e => GaveUp e
         end).

Definition no_such (kind name : string) : exn :=
  CommandError ("No " +:+ kind +:+ " with a name or ID of '" +:+ name +:+
                "' exists.").

Definition by_name (kind collection name : string) : search (gmap string pyval) :=
  Ask ("/" +:+ collection +:+ "?name=" +:+ name)
      (fun answer =>
         match answer with
         | inr (PList []) => GaveUp (no_such kind name)
         | inr (PList [entry]) =>
             match py_getitem entry "id" with
             | inr i => by_id kind collection (py_str i) (GaveUp (no_such kind name))
             | inl e => GaveUp e
             end
         | inr (PList _) =>
             GaveUp (CommandError ("Multiple " +:+ kind +:+ " matches found for '" +:+
                                   name +:+ "', use an ID to be more specific."))
         | inr _ => GaveUp TypeError
         | inl e => GaveUp e
         end).

Definition find (kind collection name_or_id : string) : search (gmap string pyval) :=
  if all_digits name_or_id
  then by_id kind collection name_or_id (by_name kind collection name_or_id)
  else by_name kind collection name_or_id.

Definition find_resource (name_or_id : string) : search (gmap string pyval) :=
  find "coserver" "servers" name_or_id.
Definition shell_find_server (ident : pyval) : search (gmap string pyval) :=
  find "server" "servers" (py_str ident).
Definition shell_find_flavor (ident : pyval) : search (gmap string pyval) :=
  find "flavor" "flavors" (py_str ident).
Definition shell_find_image (ident : pyval) : search (gmap string pyval) :=
  find "image" "images" (py_str ident).

Definition server_networks (server : CoServer) : gmap string (list string) := ∅.

Definition agent_install (server : CoServer) (user : string)
    (key_path location version ip : option string) : M unit :=
  ret tt.

Definition world0 : world :=
  mkWorld [] None
    (<["data.json" := "{}"]>
    (<["export.json" := "<exported live-image>"]>
    (<["user-data.sh" := "#!/bin/sh"]> ∅))) [].

(** [nova live-image-start --live-image li-1 --nic net-id=n1 vm] *)
Definition start_args : Args.t :=
  Args.with_nics
    {| Args.name := Some "vm"; Args.live_image := Some "li-1";
       Args.user_data := Some "user-data.sh";
       Args.security_groups := None; Args.availability_zone := None;
       Args.num_instances := "1"; Args.key_name := None;
       Args.params := ["role=web"]; Args._scheduler_hints := [];
       Args.nics := []; Args.server := EmptyString; Args.dest := None;
       Args.output := EmptyString; Args.data_filename := "data.json";
       Args.override := Some "a=1"; Args.policy_filename := EmptyString;
       Args.wait := false; Args.all := false; Args.user := "root";
       Args.key_path := None; Args.agent_location := None;
       Args.agent_version := None; Args.ip := None |}
    ["net-id=n1"].

End Demo.

(** Further sample arguments and worlds. *)

Module Samples.

(** [nova cobalt-capabilities --all] *)
Definition all_args : Args.t :=
  {| Args.name := None; Args.live_image := None; Args.user_data := None;
     Args.security_groups := None; Args.availability_zone := None;
     Args.num_instances := "1"; Args.key_name := None; Args.params := [];
     Args._scheduler_hints := []; Args.nics := []; Args.server := EmptyString;
     Args.dest := None; Args.output := EmptyString;
     Args.data_filename := EmptyString; Args.override := None;
     Args.policy_filename := EmptyString; Args.wait := false;
     Args.all := true; Args.user := "root"; Args.key_path := None;
     Args.agent_location := None; Args.agent_version := None;
     Args.ip := None |}.

(** [nova live-image-import --override novalue data.json] *)
Definition override_args : Args.t :=
  {| Args.name := None; Args.live_image := None; Args.user_data := None;
     Args.security_groups := None; Args.availability_zone := None;
     Args.num_instances := "1"; Args.key_name := None; Args.params := [];
     Args._scheduler_hints := []; Args.nics := []; Args.server := EmptyString;
     Args.dest := None; Args.output := EmptyString;
     Args.data_filename := "data.json"; Args.override := Some "novalue";
     Args.policy_filename := EmptyString; Args.wait := false;
     Args.all := false; Args.user := "root"; Args.key_path := None;
     Args.agent_location := None; Args.agent_version := None;
     Args.ip := None |}.

(** [nova cobalt-migrate --dest host-2 vm-1], also used for the handlers
    that take a server and an output or policy file. *)
Definition server_args : Args.t :=
  {| Args.name := None; Args.live_image := Some "li-1"; Args.user_data := None;
     Args.security_groups := None; Args.availability_zone := None;
     Args.num_instances := "1"; Args.key_name := None; Args.params := [];
     Args._scheduler_hints := []; Args.nics := []; Args.server := "vm-1";
     Args.dest := Some "host-2"; Args.output := "out.json";
     Args.data_filename := "missing.json"; Args.override := None;
     Args.policy_filename := "user-data.sh"; Args.wait := true;
     Args.all := false; Args.user := "root"; Args.key_path := None;
     Args.agent_location := None; Args.agent_version := None;
     Args.ip := None |}.

(** A [--nic] value that does not parse. *)
Definition bad_nic_args : Args.t := Args.with_nics Demo.start_args ["bogus"].

(** A world in which the capabilities are already cached. *)
Definition cached_world : world := mkWorld [] (Some ["user-data"]) ∅ [].

(** The servers the sample service describes. *)
Definition server_info (ident : string) : gmap string pyval :=
  <["id" := PStr ident]>
  (<["flavor" := PDict (<["id" := PStr "1"]> ∅)]>
  (<["image" := PDict (<["id" := PStr "img"]> ∅)]> ∅)).

Definition server (ident : string) : CoServer := mkCoServer ident (server_info ident).

(** A service that launches two instances and serves a two-line policy. *)
Definition api (served : list request) (r : request) : result pyval :=
  match r with
  | ServerAction action _ _ =>
      if String.eqb action "gc_launch"
      then inr (PList [PDict (<["id" := PStr "new-1"]> ∅);
                       PDict (<["id" := PStr "new-2"]> ∅)])
      else if String.eqb action "co_get_policy"
      then inr (PList [PStr "[policy]"; PStr "memory = 512"])
      else if String.eqb action "gc_export"
      then inr (PDict (<["export_image_id" := PStr "img-9"]> ∅))
      else inr PNone
  | _ => Demo.api served r
  end.

End Samples.

(** ** The manager and the subcommand handlers *)

Section Client.

(** The REST service: its answer to a request, given the requests it has
    already served. *)
Variable api : list request -> request -> result pyval.

(** Library functions of the host environment. *)
Variable json_load : string -> result pyval.        (* json.load on a file's text *)
Variable json_dumps : pyval -> string.              (* json.dumps(..., indent=4) *)
Variable py_int : string -> result Z.               (* int(s) *)
Variable py_str : pyval -> string.                  (* '%s' % v *)
Variable py_repr : gmap string pyval -> string.     (* '%s' % resource *)
Variable writable : string -> bool.                 (* file(path, 'w') opens *)
Variable server_networks : CoServer -> gmap string (list string).
                                                    (* Server.networks *)

(** novaclient's searches, each giving the description of what it found:
    [utils.find_resource(cs.cobalt, name_or_id)] and the shell's
    [_find_server], [_find_flavor] and [_find_image]. *)
Variable find_resource : string -> search (gmap string pyval).
Variable shell_find_server : pyval -> search (gmap string pyval).
Variable shell_find_flavor : pyval -> search (gmap string pyval).
Variable shell_find_image : pyval -> search (gmap string pyval).

(** [agent.install], from the package's own [agent] module. *)
Variable agent_install :
  CoServer -> string -> option string -> option string -> option string ->
  option string -> M unit.

(** Send one request: it is logged, and the service answers. *)
Definition http (r : request) : M pyval :=
  fun w => (api (http_log w) r,
            mkWorld (http_log w ++ [r]) (capabilities w) (files w) (stdout w)).

(** [open(path, 'w')] followed by [f.write(contents)] *)
Definition write_file (path : string) (contents : string) : M unit :=
  fun w =>
    if writable path
    then (inr tt, mkWorld (http_log w) (capabilities w)
                          (<[path := contents]> (files w)) (stdout w))
    else (inl (IOError path), w).

(** Run a search: every question is a GET through the REST client. *)
Fixpoint run_search {A} (l : search A) : M A :=
  match l with
  | Found a => ret a
  | GaveUp e => raise e
  | Ask url next =>
      fun w => let '(r, w1) := http (HttpGet url) w in run_search (next r) w1
  end.

(** novaclient's [Resource] made of a description: every entry becomes an
    attribute. [base.getid] gives the ['id'] attribute when there is one
    and the resource itself otherwise; [server_id] is its text in a URL. *)
Definition resource (info : gmap string pyval) : CoServer :=
  mkCoServer (match info !! "id" with
              | Some i => py_str i
              | None => py_repr info
              end) info.

(** The resource made of a response body; only a dictionary has items. *)
Definition resource_of (body : pyval) : result CoServer :=
  match body with
  | PDict d => inr (resource d)
  | _ => inl (AttributeError "items")
  end.

(** [resource.name], for an attribute name *)
Definition resource_attr (info : gmap string pyval) (name : string)
    : result pyval :=
  match info !! name with
  | Some v => inr v
  | None => inl (AttributeError name)
  end.

(** [server.id] *)
Definition attr_id (server : CoServer) : result pyval :=
  resource_attr (_info server) "id".

(** [ServerManager.get(id)] *)
Definition manager_get (ident : string) : M CoServer :=
  do body <- http (HttpGet ("/servers/" +:+ ident));
  lift (resource_of body).

(** [ServerManager._action(action, server, info)] *)
Definition _action (action : string) (ident : string) (info : option pyval)
    : M pyval :=
  http (ServerAction action ident info).

(** [ServerManager._create(url, body, response_key)] *)
Definition _create (url : string) (body : pyval) : M CoServer :=
  do resp <- http (HttpPost url body);
  lift (resource_of resp).

(** [utils.find_resource(cs.cobalt, name_or_id)]: the search, and the
    [CoServer] made of what it found. *)
Definition _find_server (name_or_id : string) : M CoServer :=
  do info <- run_search (find_resource name_or_id);
  ret (resource info).

(** [for x in v]: a list gives its elements, a dictionary its keys, a
    string its characters; nothing else can be iterated. *)
Definition py_iter (v : pyval) : result (list pyval) :=
  match v with
  | PList l => inr l
  | PDict d => inr (PStr <$> keys d)
  | PStr s => inr ((fun c => PStr (String c EmptyString)) <$> String.list_ascii_of_string s)
  | _ => inl TypeError
  end.

(** [[self.get(server['id']) for server in info]] *)
Definition get_each (info : pyval) : M (list CoServer) :=
  do entries <- lift (py_iter info);
  mmap (fun entry =>
          do i <- lift (py_getitem entry "id");
          manager_get (py_str i)) entries.

(** *** [CoServerManager] *)

Definition get_info : M pyval := http (HttpGet "/gcinfo").

Definition setup_capabilities : M unit :=
  do info <- get_info;
  do api_caps <- lift (py_getitem info "capabilities");
  do caps <- lift (compute_capabilities api_caps);
  set_capabilities caps.

(** [self.capabilities] *)
Definition read_capabilities : M (list string) :=
  do attr <- get_capabilities;
  match attr with
  | Some caps => ret caps
  | None => raise (AttributeError "capabilities")
  end.

(** [if not hasattr(self, 'capabilities'): self.setup_capabilities()] *)
Definition ensure_capabilities : M unit :=
  do attr <- get_capabilities;
  match attr with
  | Some _ => ret tt
  | None => setup_capabilities
  end.

Definition satisfies (requirements : list string) : M bool :=
  do _ <- ensure_capabilities;
  do caps <- read_capabilities;
  ret (bool_decide ((list_to_set requirements : gset string) ⊆ list_to_set caps)).

Definition start_live_image (server : CoServer) (name : option string)
    (user_data : user_data_arg) (guest_params : gmap string string)
    (security_groups : option (list string)) (availability_zone : option string)
    (num_instances : Z) (key_name : option string)
    (scheduler_hints : gmap string hint_value)
    (networks : option (list (gmap string string))) : M (list CoServer) :=
  let params := launch_params name user_data guest_params security_groups
                  availability_zone num_instances key_name scheduler_hints
                  networks in
  do info <- _action "gc_launch" (server_id server) (Some (PDict params));
  get_each info.

Definition create_live_image (server : CoServer) (name : option string)
    : M (list CoServer) :=
  let params : gmap string pyval := <["name" := opt_str name]> ∅ in
  do info <- _action "gc_bless" (server_id server) (Some (PDict params));
  get_each info.

Definition delete_live_image (server : CoServer) : M pyval :=
  _action "gc_discard" (server_id server) None.

Definition migrate (server : CoServer) (dest : option string) : M pyval :=
  let params : gmap string pyval :=
    match dest with
    | Some d => <["dest" := PStr d]> ∅
    | None => ∅
    end in
  _action "gc_migrate" (server_id server) (Some (PDict params)).

Definition list_live_image_servers (server : CoServer) : M (list CoServer) :=
  do info <- _action "gc_list_launched" (server_id server) None;
  get_each info.

Definition list_live_images (server : CoServer) : M (list CoServer) :=
  do info <- _action "gc_list_blessed" (server_id server) None;
  get_each info.

Definition export (server : CoServer) : M pyval :=
  do i <- lift (attr_id server);
  _action "gc_export" (py_str i) None.

Definition import_instance (data : pyval) : M CoServer :=
  let body : gmap string pyval := <["data" := data]> ∅ in
  _create "/gc-import-server" (PDict body).

Definition install_policy (policy_ini_string : string) (wait : bool) : M pyval :=
  let body : gmap string pyval :=
    <["policy_ini_string" := PStr policy_ini_string]>
    (<["wait" := PBool wait]> ∅) in
  http (HttpPost "/gcpolicy" (PDict body)).

Definition get_policy (server : CoServer) : M pyval :=
  _action "co_get_policy" (server_id server) None.

Definition install_agent (server : CoServer) (user : string)
    (key_path location version ip : option string) : M unit :=
  agent_install server user key_path location version ip.

(** *** Display helpers *)

Definition _print_server (server : CoServer) (minimal : bool) : M unit :=
  do server <- (if bool_decide (is_Some (_info server !! "flavor"))
                then ret server
                else do i <- lift (attr_id server);
                     do found <- run_search (shell_find_server i);
                     ret (resource found));
  let info :=
    foldl (fun (info : gmap string pyval) (entry : string * list string) =>
             <[entry.1 +:+ " network" := PStr (PyStr.join ", " entry.2)]> info)
          (_info server) (map_to_list (server_networks server)) in
  let flavor := default (PDict ∅) (info !! "flavor") in
  do flavor_id <- lift (py_get flavor "id" (PStr EmptyString));
  do flavor_text <- (if minimal then ret flavor_id
                     else do found <- run_search (shell_find_flavor flavor_id);
                          lift (resource_attr found "name"));
  let info := <["flavor" := flavor_text]> info in
  let image := default (PDict ∅) (info !! "image") in
  do image_text <-
    (if py_truthy image then
       do image_id <- lift (py_get image "id" (PStr EmptyString));
       if minimal then ret image_id
       else try_except
              (do found <- run_search (shell_find_image image_id);
               do n <- lift (resource_attr found "name");
               ret (PStr (py_str n +:+ " (" +:+ py_str image_id +:+ ")")))
              (ret (PStr ("Image not found (" +:+ py_str image_id +:+ ")")))
     else ret (PStr "Attempt to boot from volume - no image supplied"));
  let info := <["image" := image_text]> info in
  let info := delete "addresses" (delete "links" info) in
  print (OutDict info).

Definition _print_list (servers : list CoServer) : M unit :=
  print (OutList servers).

(** A positional argument is always present. *)
Definition positional (o : option string) : string := default EmptyString o.

(** *** Subcommand handlers *)

Definition do_live_image_start (args : Args.t) : M unit :=
  if negb (opt_truthy (Args.live_image args)) then
    raise (CommandError "you need to provide a live-image ID")
  else
  do server <- _find_server (positional (Args.live_image args));
  let guest_params := guest_params_of (Args.params args) in
  do user_data <-
    match Args.user_data args with
    | Some path =>
        if PyStr.truthy path
        then do contents <- read_file path; ret (UDFile contents)
        else ret UDNone
    | None => ret UDNone
    end;
  let security_groups :=
    match Args.security_groups args with
    | Some s => if PyStr.truthy s then Some (PyStr.split "," s) else None
    | None => None
    end in
  let availability_zone :=
    match Args.availability_zone args with
    | Some s => if PyStr.truthy s then Some s else None
    | None => None
    end in
  let scheduler_hints := scheduler_hints_of (Args._scheduler_hints args) in
  do nics <- lift (parse_nics_arg (Args.nics args));
  do num_instances <- lift (py_int (Args.num_instances args));
  do launch_servers <-
    start_live_image server (Args.name args) user_data guest_params
      security_groups availability_zone num_instances (Args.key_name args)
      scheduler_hints (Some nics);
  mfor launch_servers (fun server => _print_server server false).

Definition do_launch (args : Args.t) : M unit :=
  do_live_image_start (Args.with_nics args []).

Definition do_live_image_create (args : Args.t) : M unit :=
  do server <- _find_server (Args.server args);
  do blessed_servers <- create_live_image server (Args.name args);
  mfor blessed_servers (fun server => _print_server server false).

Definition do_bless (args : Args.t) : M unit := do_live_image_create args.

Definition do_live_image_delete (args : Args.t) : M unit :=
  do server <- _find_server (positional (Args.live_image args));
  do _ <- delete_live_image server;
  ret tt.

Definition do_discard (args : Args.t) : M unit := do_live_image_delete args.

Definition do_cobalt_migrate (args : Args.t) : M unit :=
  do server <- _find_server (Args.server args);
  do _ <- migrate server (Args.dest args);
  ret tt.

Definition do_gc_migrate (args : Args.t) : M unit := do_cobalt_migrate args.

Definition do_live_image_servers (args : Args.t) : M unit :=
  do server <- _find_server (positional (Args.live_image args));
  do servers <- list_live_image_servers server;
  _print_list servers.

Definition do_list_launched (args : Args.t) : M unit :=
  do_live_image_servers args.

Definition do_live_image_list (args : Args.t) : M unit :=
  do server <- _find_server (Args.server args);
  do servers <- list_live_images server;
  _print_list servers.

Definition do_list_blessed (args : Args.t) : M unit := do_live_image_list args.

Definition do_live_image_export (args : Args.t) : M unit :=
  do server <- _find_server (Args.server args);
  do result <- export server;
  let json_result := json_dumps result +:+ String "010" EmptyString in
  do _ <- write_file (Args.output args) json_result;
  do image_id <- lift (py_getitem result "export_image_id");
  print (OutLine ("Instance data is being exported to image " +:+ py_str image_id)).

Definition do_live_image_import (args : Args.t) : M unit :=
  do text <- read_file (Args.data_filename args);
  do data <- lift (json_load text);
  do data <- lift (apply_overrides (Args.override args) data);
  do server <- import_instance data;
  _print_server server false.

Definition do_install_policy (args : Args.t) : M unit :=
  do policy <- read_file (Args.policy_filename args);
  do _ <- install_policy policy (Args.wait args);
  ret tt.

Definition do_get_policy (args : Args.t) : M unit :=
  do server <- _find_server (Args.server args);
  do info <- get_policy server;
  do lines <- lift (py_iter info);
  mfor lines (fun line => print (OutLine (py_str line))).

(** ['%-20s' % s] *)
Definition ljust (width : nat) (s : string) : string :=
  s +:+ String.string_of_list_ascii (replicate (width - String.length s) " "%char).

Definition do_cobalt_capabilities (args : Args.t) : M unit :=
  let caps : gmap string string := CAPS_HELP in
  let caps :=
    foldl (fun (caps : gmap string string) k => <[k := EmptyString]> caps) caps
          (filter (fun x => CAPS_HELP !! x = None) (keys CAPABILITIES)) in
  do caps <-
    (if negb (Args.all args) then
       do _ <- ensure_capabilities;
       do supported <- read_capabilities;
       let elide :=
         elements ((list_to_set (keys CAPABILITIES) : gset string)
                     ∖ list_to_set supported) in
       ret (foldl (fun (caps : gmap string string) k => delete k caps) caps elide)
     else ret caps);
  mfor (map_to_list caps)
       (fun entry => print (OutLine ("    " +:+ ljust 20 entry.1 +:+ "  " +:+ entry.2))).

Definition do_cobalt_install_agent (args : Args.t) : M unit :=
  do server <- _find_server (Args.server args);
  install_agent server (Args.user args) (Args.key_path args)
    (Args.agent_location args) (Args.agent_version args) (Args.ip args).

Definition do_gc_install_agent (args : Args.t) : M unit :=
  do_cobalt_install_agent args.

(** *** The subcommand table *)

Inductive subcommand : Type :=
| live_image_start | launch
| live_image_create | bless
| live_image_delete | discard
| cobalt_migrate | gc_migrate
| live_image_servers | list_launched
| live_image_list | list_blessed
| live_image_export | live_image_import
| cmd_install_policy | cmd_get_policy
| cobalt_capabilities
| cobalt_install_agent | gc_install_agent.

Definition handler (c : subcommand) : Args.t -> M unit :=
  match c with
  | live_image_start => do_live_image_start
  | launch => do_launch
  | live_image_create => do_live_image_create
  | bless => do_bless
  | live_image_delete => do_live_image_delete
  | discard => do_discard
  | cobalt_migrate => do_cobalt_migrate
  | gc_migrate => do_gc_migrate
  | live_image_servers => do_live_image_servers
  | list_launched => do_list_launched
  | live_image_list => do_live_image_list
  | list_blessed => do_list_blessed
  | live_image_export => do_live_image_export
  | live_image_import => do_live_image_import
  | cmd_install_policy => do_install_policy
  | cmd_get_policy => do_get_policy
  | cobalt_capabilities => do_cobalt_capabilities
  | cobalt_install_agent => do_cobalt_install_agent
  | gc_install_agent => do_gc_install_agent
  end.

(** ** Vocabulary of the statements *)

Definition nic_keys : list string := ["net-id"; "v4-fixed-ip"; "port-id"].

(** The dictionary of one NIC always has exactly the three known keys. *)
Definition nic_shape (d : gmap string string) : Prop :=
  forall k, is_Some (d !! k) <-> k ∈ nic_keys.

Definition no_comma (s : string) : Prop := PyStr.contains "," s = false.

(** The key and the value of a [key=value] argument cut at its first ['=']. *)
Definition hint_key (hint : string) : string := (PyStr.partition "=" hint).1.1.
Definition hint_val (hint : string) : string := (PyStr.partition "=" hint).2.

(** The values given for [key], in argument order. *)
Definition hint_values (key : string) (hints : list string) : list string :=
  omap (fun hint => if decide (hint_key hint = key) then Some (hint_val hint) else None)
       hints.

(** What a key given [n] times must map to. *)
Definition hint_entry (values : list string) : option hint_value :=
  match values with
  | [] => None
  | [v] => Some (HintStr v)
  | _ => Some (HintList values)
  end.

(** The value an NIC dictionary gives to [k], unless missing or empty. *)
Definition nonempty_field (nic_info : gmap string string) (k : string)
    : option pyval :=
  match nic_info !! k with
  | Some v => if decide (v = EmptyString) then None else Some (PStr v)
  | None => None
  end.

(** Requests that are all plain lookups. *)
Definition only_gets (l : list request) : Prop :=
  Forall (fun r => is_call r = false) l.

(** Number of actions and POSTs among some requests. *)
Definition calls (l : list request) : nat :=
  length (filter (fun r => is_call r = true) l).

(** [c] only appends to the log, and what it appends, together with its
    outcome, satisfies [P]. *)
Definition issues {A} (c : M A) (P : result A -> list request -> Prop) : Prop :=
  forall w, exists rest, http_log (c w).2 = http_log w ++ rest /\ P (c w).1 rest.

Definition quiet {A} (c : M A) : Prop := issues c (fun _ rest => only_gets rest).

Definition at_most {A} (n : nat) (c : M A) : Prop :=
  issues c (fun _ rest => calls rest <= n).

(** Either the run failed having sent lookups only, or it sent exactly one
    call, which satisfies [P], among lookups. *)
Definition single_call {A} (P : request -> Prop) (r : result A)
    (rest : list request) : Prop :=
  (only_gets rest /\ exists e, r = inl e) \/
  (exists gets1 call gets2,
     rest = gets1 ++ call :: gets2 /\
     only_gets gets1 /\ only_gets gets2 /\ is_call call = true /\ P call).

Definition is_launch (r : request) : Prop :=
  exists ident params, r = ServerAction "gc_launch" ident (Some (PDict params)).

(** The call a subcommand is there to make: the name of a server action,
    or the URL of a POST. Listing the capabilities and installing the agent
    have none. *)
Definition call_of (c : subcommand) : option (string + string) :=
  match c with
  | live_image_start | launch => Some (inl "gc_launch")
  | live_image_create | bless => Some (inl "gc_bless")
  | live_image_delete | discard => Some (inl "gc_discard")
  | cobalt_migrate | gc_migrate => Some (inl "gc_migrate")
  | live_image_servers | list_launched => Some (inl "gc_list_launched")
  | live_image_list | list_blessed => Some (inl "gc_list_blessed")
  | live_image_export => Some (inl "gc_export")
  | live_image_import => Some (inr "/gc-import-server")
  | cmd_install_policy => Some (inr "/gcpolicy")
  | cmd_get_policy => Some (inl "co_get_policy")
  | cobalt_capabilities | cobalt_install_agent | gc_install_agent => None
  end.

Definition makes (c : subcommand) (r : request) : bool :=
  match call_of c, r with
  | Some (inl name), ServerAction action _ _ => String.eqb name action
  | Some (inr endpoint), HttpPost url _ => String.eqb endpoint url
  | _, _ => false
  end.

(** The world after some requests were sent. *)
Definition sent (w : world) (requests : list request) : world :=
  mkWorld (http_log w ++ requests) (capabilities w) (files w) (stdout w).

(** The server a handler looks up first, if it looks one up. *)
Definition looked_up (c : subcommand) (args : Args.t) : option string :=
  match c with
  | live_image_start | launch =>
      if opt_truthy (Args.live_image args)
      then Some (positional (Args.live_image args)) else None
  | live_image_delete | discard | live_image_servers | list_launched =>
      Some (positional (Args.live_image args))
  | live_image_create | bless | cobalt_migrate | gc_migrate
  | live_image_list | list_blessed | live_image_export | cmd_get_policy
  | cobalt_install_agent | gc_install_agent =>
      Some (Args.server args)
  | live_image_import | cmd_install_policy | cobalt_capabilities => None
  end.

(** What [--user-data] makes of the file system: the file object handed to
    the manager when the option names a file, [None] when it is not given
    or empty; opening a missing file raises. *)
Definition read_user_data (fs : gmap string string) (option_value : option string)
    : result user_data_arg :=
  match option_value with
  | Some path =>
      if PyStr.truthy path then
        match fs !! path with
        | Some contents => inr (UDFile contents)
        | None => inl (IOError path)
        end
      else inr UDNone
  | None => inr UDNone
  end.

(** Membership of a string in a list as the server reports it. *)
Definition reported (api_caps : list pyval) (x : string) : bool :=
  existsb (fun v => match v with
                    | PStr s => bool_decide (s = x)
                    | _ => false
                    end) api_caps.

(** ** Further vocabulary *)

(** The value a key holds after one more [key=value] argument: the
    argument's value when it names the key, the earlier one otherwise. *)
Definition field_after (k : string) (earlier : option string) (arg : string)
    : option string :=
  if decide (hint_key arg = k) then Some (hint_val arg) else earlier.

(** ** [CoServerManager.__init__]

    The attributes of the client object are a dictionary from names to
    managers. After the base class has set itself up, the manager attaches
    itself as [cobalt] and as [gridcentric], unless the client already has
    an attribute of that name. *)
Definition manager_init {Mgr} (self : Mgr) (client : gmap string Mgr)
    : gmap string Mgr :=
  let client :=
    if decide (is_Some (client !! "cobalt")) then client
    else <["cobalt" := self]> client in
  let client :=
    if decide (is_Some (client !! "gridcentric")) then client
    else <["gridcentric" := self]> client in
  client.

(** The first component of a dotted path. *)
Definition hint_key_dot (key : string) : string := (PyStr.partition "." key).1.1.

(** One line of [cobalt-capabilities]: the name, padded, and its help. *)
Definition capability_line (entry : string * string) : output :=
  OutLine ("    " +:+ ljust 20 entry.1 +:+ "  " +:+ entry.2).

(** The world after some lines were printed. *)
Definition printed (w : world) (lines : list output) : world :=
  mkWorld (http_log w) (capabilities w) (files w) (stdout w ++ lines).


(** [c] prints nothing. *)
Definition keeps_stdout {A} (c : M A) : Prop :=
  forall w, stdout (c w).2 = stdout w.

(** * Properties *)

(** ** Sanity checks of the primitives *)

Example split_ex1 : PyStr.split "," "a,,b" = ["a"; EmptyString; "b"].
Proof. reflexivity. Qed.
Example split_ex2 : PyStr.split "," EmptyString = [EmptyString].
Proof. reflexivity. Qed.
Example splitn_ex1 : PyStr.splitn 1 "=" "k=v=w" = ["k"; "v=w"].
Proof. reflexivity. Qed.
Example splitn_ex2 : PyStr.splitn 1 "=" "kv" = ["kv"].
Proof. reflexivity. Qed.
Example splitn_ex3 : PyStr.splitn 1 "=" "k=" = ["k"; EmptyString].
Proof. reflexivity. Qed.
Example partition_ex1 : PyStr.partition "=" "k=v=w" = ("k", "=", "v=w").
Proof. reflexivity. Qed.
Example partition_ex2 : PyStr.partition "=" "kv" = ("kv", EmptyString, EmptyString).
Proof. reflexivity. Qed.
Example join_ex1 : PyStr.join "=" ["v"; "w"; EmptyString] = "v=w=".
Proof. reflexivity. Qed.
Example b64_ex1 : Codec.b64encode "hello" = "aGVsbG8=".
Proof. reflexivity. Qed.
Example b64_ex2 : Codec.b64encode "#!/bin/sh" = "IyEvYmluL3No".
Proof. reflexivity. Qed.
Example b64_ex3 : Codec.b64encode "a" = "YQ==".
Proof. reflexivity. Qed.
Example utf8_ex1 : Codec.utf8_encode [104; 233]%N = String "h" (String "195" (String "169" EmptyString)).
Proof. reflexivity. Qed.
Example parse_nics_ex1 :
  parse_nics_arg ["net-id=UUID,v4-fixed-ip=1.2.3.4"] =
  inr [<["net-id" := "UUID"]> (<["v4-fixed-ip" := "1.2.3.4"]> (<["port-id" := EmptyString]> ∅))].
Proof. vm_compute. reflexivity. Qed.
Example parse_nics_ex2 :
  parse_nics_arg ["v4-fixed-ip=1.2.3.4"] =
  inl (CommandError (nic_err_msg "v4-fixed-ip=1.2.3.4")).
Proof. vm_compute. reflexivity. Qed.
Example parse_nics_ex3 :
  parse_nics_arg ["port-id=p"; "net-id=n,bogus"] =
  inl (CommandError (nic_err_msg "net-id=n,bogus")).
Proof. vm_compute. reflexivity. Qed.

(** ** Facts about the string primitives *)

Section StringFacts.
Variable sep : ascii.

Lemma split_nonempty s : PyStr.split sep s <> [].
Proof.
  destruct s as [|c s]; simpl; [done|].
  destruct (Ascii.eqb c sep); [done|].
  destruct (PyStr.split sep s); done.
Qed.

Lemma split_no_sep s : PyStr.contains sep s = false -> PyStr.split sep s = [s].
Proof.
  induction s as [|c s IH]; simpl; [done|].
  destruct (Ascii.eqb c sep); [done|].
  intros H. rewrite IH by done. done.
Qed.

Lemma split_cons_sep k v :
  PyStr.contains sep k = false ->
  PyStr.split sep (k +:+ String sep v) = k :: PyStr.split sep v.
Proof.
  induction k as [|c k IH]; simpl.
  - intros _. by rewrite Ascii.eqb_refl.
  - destruct (Ascii.eqb c sep); [done|].
    intros H. by rewrite IH.
Qed.

(** Splitting undoes joining: the components of a joined list come back. *)
Lemma split_join comps :
  comps <> [] ->
  Forall (fun c => PyStr.contains sep c = false) comps ->
  PyStr.split sep (PyStr.join (String sep EmptyString) comps) = comps.
Proof.
  induction comps as [|c comps IH]; [done|].
  intros _ Hall. inversion_clear Hall as [|? ? Hc Hrest].
  destruct comps as [|c' comps].
  - simpl. by apply split_no_sep.
  - change (PyStr.join (String sep EmptyString) (c :: c' :: comps))
      with (c +:+ String sep (PyStr.join (String sep EmptyString) (c' :: comps))).
    rewrite split_cons_sep by done. f_equal. by apply IH.
Qed.

(** Joining undoes splitting. *)
Lemma join_split s :
  PyStr.join (String sep EmptyString) (PyStr.split sep s) = s.
Proof.
  induction s as [|c s IH]; simpl; [done|].
  destruct (Ascii.eqb_spec c sep) as [->|Hne].
  - pose proof (split_nonempty s) as Hs.
    destruct (PyStr.split sep s) as [|h t]; [done|].
    simpl in *. by rewrite IH.
  - pose proof (split_nonempty s) as Hs.
    destruct (PyStr.split sep s) as [|h t]; [done|].
    destruct t as [|h' t]; simpl in *; by rewrite <- IH.
Qed.

Lemma splitn1_no_sep s :
  PyStr.contains sep s = false -> PyStr.splitn 1 sep s = [s].
Proof.
  induction s as [|c s IH]; simpl; [done|].
  destruct (Ascii.eqb c sep); [done|].
  intros H. specialize (IH H).
  destruct s; simpl in *; [done|]. by rewrite IH.
Qed.

Lemma splitn0 s : PyStr.splitn 0 sep s = [s].
Proof. by destruct s. Qed.

Lemma splitn1_sep k v :
  PyStr.contains sep k = false ->
  PyStr.splitn 1 sep (k +:+ String sep v) = [k; v].
Proof.
  induction k as [|c k IH]; simpl.
  - intros _. by rewrite Ascii.eqb_refl, splitn0.
  - destruct (Ascii.eqb c sep); [done|].
    intros H. by rewrite IH.
Qed.

(** Every string either has no separator or splits at its first one. *)
Lemma first_sep s :
  PyStr.contains sep s = false \/
  exists k v, s = k +:+ String sep v /\ PyStr.contains sep k = false.
Proof.
  induction s as [|c s IH]; simpl; [by left|].
  destruct (Ascii.eqb_spec c sep) as [->|Hne].
  - right. by exists EmptyString, s.
  - destruct IH as [H|(k & v & -> & Hk)]; [by left|].
    right. exists (String c k), v. split; [done|].
    simpl. by destruct (Ascii.eqb_spec c sep).
Qed.

Lemma contains_app_sep k v : PyStr.contains sep (k +:+ String sep v) = true.
Proof.
  induction k as [|c k IH]; simpl.
  - by rewrite Ascii.eqb_refl.
  - by destruct (Ascii.eqb c sep).
Qed.

Lemma splitn1_inv s k v :
  PyStr.splitn 1 sep s = [k; v] ->
  s = k +:+ String sep v /\ PyStr.contains sep k = false.
Proof.
  destruct (first_sep s) as [H|(k' & v' & -> & Hk)].
  - rewrite splitn1_no_sep by done. done.
  - rewrite splitn1_sep by done. by intros [= <- <-].
Qed.

Lemma partition_no_sep s :
  PyStr.contains sep s = false ->
  PyStr.partition sep s = (s, EmptyString, EmptyString).
Proof.
  induction s as [|c s IH]; simpl; [done|].
  destruct (Ascii.eqb c sep); [done|].
  intros H. by rewrite IH.
Qed.

Lemma partition_sep k v :
  PyStr.contains sep k = false ->
  PyStr.partition sep (k +:+ String sep v) = (k, String sep EmptyString, v).
Proof.
  induction k as [|c k IH]; simpl.
  - by rewrite Ascii.eqb_refl.
  - destruct (Ascii.eqb c sep); [done|].
    intros H. by rewrite IH.
Qed.

(** [s.split(sep)] starts with what [s.partition(sep)] puts before the
    separator; the rest, joined again, is what it puts after. *)
Lemma split_partition s :
  exists rest,
    PyStr.split sep s = (PyStr.partition sep s).1.1 :: rest /\
    PyStr.join (String sep EmptyString) rest = (PyStr.partition sep s).2.
Proof.
  destruct (first_sep s) as [H|(k & v & -> & Hk)].
  - exists []. by rewrite split_no_sep, partition_no_sep.
  - exists (PyStr.split sep v).
    by rewrite split_cons_sep, partition_sep, join_split.
Qed.

End StringFacts.

(** ** Loops that may raise *)

Lemma rmap_fmap_ok {A B C} (f : B -> result C) (g : A -> B) (h : A -> C) l :
  Forall (fun a => f (g a) = inr (h a)) l ->
  rmap f (g <$> l) = inr (h <$> l).
Proof.
  induction 1 as [|a l Ha _ IH]; [done|].
  rewrite !fmap_cons. simpl. by rewrite Ha, IH.
Qed.

(** If some element makes the body raise, the loop raises, with the
    exception of one of its elements. *)
Lemma rmap_raises {A B} (f : A -> result B) l x e :
  x ∈ l -> f x = inl e ->
  exists y e', y ∈ l /\ f y = inl e' /\ rmap f l = inl e'.
Proof.
  induction l as [|a l IH]; intros Hin Hx; [by apply elem_of_nil in Hin|].
  simpl. destruct (f a) as [e'|b] eqn:Ha.
  - exists a, e'. split; [by left|done].
  - apply elem_of_cons in Hin as [->|Hin]; [congruence|].
    destruct (IH Hin Hx) as (y & e' & Hy & Hfy & Hr).
    exists y, e'. split; [by right|]. split; [done|]. simpl. by rewrite Hr.
Qed.

Lemma rfold_invariant {A S} (P : S -> Prop) (f : S -> A -> result S) l s s' :
  (forall s x s', P s -> f s x = inr s' -> P s') ->
  P s -> rfold f l s = inr s' -> P s'.
Proof.
  intros Hstep. revert s.
  induction l as [|a l IH]; simpl; intros s Hs Hr; [by simplify_eq|].
  destruct (f s a) as [e|s1] eqn:Ha; simpl in Hr; [done|]. eauto.
Qed.

(** The same with a condition on the elements met. *)
Lemma rfold_invariant_in {A S} (P : S -> Prop) (f : S -> A -> result S) l s s' :
  (forall s x s', x ∈ l -> P s -> f s x = inr s' -> P s') ->
  P s -> rfold f l s = inr s' -> P s'.
Proof.
  revert s.
  induction l as [|a l IH]; simpl; intros s Hstep Hs Hr; [by simplify_eq|].
  destruct (f s a) as [e|s1] eqn:Ha; simpl in Hr; [done|].
  eapply IH; [|by eapply (Hstep s a); [left|..]|done].
  intros ???? ; apply Hstep. by right.
Qed.

Lemma rfold_raises {A S} (P : S -> Prop) (f : S -> A -> result S) l x s :
  (forall s y s', P s -> f s y = inr s' -> P s') ->
  (forall s, P s -> exists e, f s x = inl e) ->
  x ∈ l -> P s -> exists e, rfold f l s = inl e.
Proof.
  intros Hstep Hx. revert s.
  induction l as [|a l IH]; intros s Hin Hs; [by apply elem_of_nil in Hin|].
  simpl. destruct (f s a) as [e|s1] eqn:Ha; [by eexists|]. simpl.
  apply elem_of_cons in Hin as [->|Hin].
  - destruct (Hx s Hs) as [e He]. congruence.
  - eauto.
Qed.

Lemma rfold_raised {A S} (f : S -> A -> result S) l s e :
  rfold f l s = inl e -> exists s1 x, x ∈ l /\ f s1 x = inl e.
Proof.
  revert s. induction l as [|a l IH]; simpl; intros s Hr; [done|].
  destruct (f s a) as [e'|s1] eqn:Ha; simpl in Hr.
  - simplify_eq. exists s, a. split; [by left|done].
  - destruct (IH _ Hr) as (s2 & x & Hin & Hx). exists s2, x. split; [by right|done].
Qed.

(** ** [parse_nics_arg] *)

Lemma nic_info_init_shape : nic_shape nic_info_init.
Proof.
  intros k. unfold nic_info_init, nic_keys.
  rewrite !elem_of_cons, elem_of_nil.
  split.
  - intros [v Hv].
    destruct (decide (k = "net-id")) as [->|?]; [by left|].
    destruct (decide (k = "v4-fixed-ip")) as [->|?]; [by right; left|].
    destruct (decide (k = "port-id")) as [->|?]; [by right; right; left|].
    by rewrite !lookup_insert_ne, lookup_empty in Hv.
  - intros [->|[->|[->|[]]]]; by eexists.
Qed.

Lemma parse_nic_kv_shape msg d kv d' :
  nic_shape d -> parse_nic_kv msg d kv = inr d' -> nic_shape d'.
Proof.
  unfold parse_nic_kv. intros Hd.
  destruct (PyStr.splitn 1 "=" kv) as [|k [|v [|]]]; try done.
  case_decide as Hk; [|done]. intros [= <-] k'.
  rewrite lookup_insert_is_Some, <- (Hd k').
  split; [intros [<-|[_ ?]]; done|].
  intros. destruct (decide (k = k')); [by left|by right].
Qed.

Lemma parse_nic_kv_error msg d kv e :
  parse_nic_kv msg d kv = inl e -> e = CommandError msg.
Proof.
  unfold parse_nic_kv.
  destruct (PyStr.splitn 1 "=" kv) as [|k [|v [|]]]; try congruence.
  case_decide; congruence.
Qed.

(** Whatever goes wrong with one [--nic] value, the exception is the command
    error carrying that value's message. *)
Lemma parse_nic_error nic_str e :
  parse_nic nic_str = inl e -> e = CommandError (nic_err_msg nic_str).
Proof.
  unfold parse_nic.
  destruct (rfold _ _ _) as [e0|d] eqn:Hfold; simpl.
  - intros [= <-]. apply rfold_raised in Hfold as (s1 & x & _ & Hx).
    by apply parse_nic_kv_error in Hx.
  - assert (nic_shape d) as Hd.
    { eapply (rfold_invariant nic_shape); [|apply nic_info_init_shape|exact Hfold].
      intros ?????; by eapply parse_nic_kv_shape. }
    assert ("net-id" ∈ nic_keys) as Hn by (unfold nic_keys; rewrite !elem_of_cons; auto).
    assert ("port-id" ∈ nic_keys) as Hp by (unfold nic_keys; rewrite !elem_of_cons; auto).
    apply Hd in Hn as [n Hn]. apply Hd in Hp as [p Hp].
    unfold dict_get. rewrite Hn, Hp. simpl.
    destruct (_ && _); congruence.
Qed.

Lemma parse_nic_kv_ok msg (d : gmap string string) k v :
  PyStr.contains "=" k = false -> is_Some (d !! k) ->
  parse_nic_kv msg d (k +:+ String "=" v) = inr (<[k := v]> d).
Proof.
  intros Hk Hd. unfold parse_nic_kv.
  rewrite splitn1_sep by done. by rewrite decide_True.
Qed.

Lemma parse_nic_accepts uuid ip :
  uuid <> EmptyString -> no_comma uuid -> no_comma ip ->
  parse_nic ("net-id=" +:+ uuid +:+ ",v4-fixed-ip=" +:+ ip) =
  inr (<["net-id" := uuid]> (<["v4-fixed-ip" := ip]> (<["port-id" := EmptyString]> ∅))).
Proof.
  intros Hne Hu Hi. unfold parse_nic.
  change ("net-id=" +:+ uuid +:+ ",v4-fixed-ip=" +:+ ip)
    with (PyStr.join "," ["net-id=" +:+ uuid; "v4-fixed-ip=" +:+ ip]) at 2.
  rewrite split_join; [|done|by repeat constructor].
  simpl rfold.
  change ("net-id=" +:+ uuid) with ("net-id" +:+ String "=" uuid).
  rewrite parse_nic_kv_ok; [|done|by eexists]. simpl rbind.
  change ("v4-fixed-ip=" +:+ ip) with ("v4-fixed-ip" +:+ String "=" ip).
  rewrite parse_nic_kv_ok; [|done|by eexists]. simpl rbind.
  replace (<["v4-fixed-ip":=ip]> (<["net-id":=uuid]> nic_info_init))
    with (<["net-id" := uuid]> (<["v4-fixed-ip" := ip]>
            (<["port-id" := EmptyString]> (∅ : gmap string string)))).
  - unfold dict_get. rewrite lookup_insert_eq. simpl.
    by destruct uuid.
  - apply map_eq; intros k; unfold nic_info_init.
    repeat (rewrite lookup_insert; case_decide; subst; try done).
Qed.

Section OneNic.
(** The comma-separated components of one [--nic] value. *)
Variable comps : list string.
Hypothesis comps_nonempty : comps <> [].
Hypothesis comps_no_comma : Forall no_comma comps.

Lemma parse_nic_no_equals c :
  c ∈ comps -> PyStr.contains "=" c = false ->
  exists e, parse_nic (PyStr.join "," comps) = inl e.
Proof.
  intros Hin Hc. unfold parse_nic. rewrite split_join by done.
  destruct (rfold_raises (fun _ => True)
              (parse_nic_kv (nic_err_msg (PyStr.join "," comps)))
              comps c nic_info_init) as [e He]; [done| |done|done|].
  - intros d _. unfold parse_nic_kv. rewrite splitn1_no_sep by done. by eexists.
  - rewrite He. by eexists.
Qed.

Lemma parse_nic_unknown_key k v :
  k +:+ "=" +:+ v ∈ comps -> PyStr.contains "=" k = false -> k ∉ nic_keys ->
  exists e, parse_nic (PyStr.join "," comps) = inl e.
Proof.
  intros Hin Hk Hbad. unfold parse_nic. rewrite split_join by done.
  destruct (rfold_raises nic_shape
              (parse_nic_kv (nic_err_msg (PyStr.join "," comps)))
              comps (k +:+ "=" +:+ v) nic_info_init) as [e He];
    [by intros ?????; eapply parse_nic_kv_shape| |done|apply nic_info_init_shape|].
  - intros d Hd. unfold parse_nic_kv.
    change (k +:+ "=" +:+ v) with (k +:+ String "=" v).
    rewrite splitn1_sep by done.
    rewrite decide_False; [by eexists|]. by rewrite (Hd k).
  - rewrite He. by eexists.
Qed.

Lemma parse_nic_unset :
  (forall v, "net-id=" +:+ v ∈ comps \/ "port-id=" +:+ v ∈ comps -> v = EmptyString) ->
  exists e, parse_nic (PyStr.join "," comps) = inl e.
Proof.
  intros Hunset. unfold parse_nic. rewrite split_join by done.
  destruct (rfold _ comps _) as [e|d] eqn:Hfold; [by eexists|].
  assert (d !! "net-id" = Some EmptyString /\ d !! "port-id" = Some EmptyString)
    as [Hn Hp].
  { eapply (rfold_invariant_in
              (fun d : gmap string string =>
                 d !! "net-id" = Some EmptyString /\
                 d !! "port-id" = Some EmptyString) _ comps nic_info_init d);
      [|split; reflexivity|exact Hfold].
    intros d0 c d1 Hc [Hn Hp]. unfold parse_nic_kv.
    destruct (PyStr.splitn 1 "=" c) as [|k [|v [|]]] eqn:Hsplit; try done.
    apply splitn1_inv in Hsplit as [-> _].
    case_decide; [|done]. intros [= <-].
    rewrite !lookup_insert. split; case_decide as Hk; try done; subst k.
    + by rewrite (Hunset v (or_introl Hc)).
    + by rewrite (Hunset v (or_intror Hc)). }
  simpl. unfold dict_get. rewrite Hn. simpl. rewrite Hp. simpl. by eexists.
Qed.

End OneNic.

(** C2: [parse_nics_arg] accepts every list of specs of the form
    [net-id=UUID,v4-fixed-ip=ADDR] (a non-empty UUID, no comma in either
    part) and returns, for each, the dictionary with those two values
    filled in and an empty [port-id]. It raises a command error, carrying
    the message of one of the given specs, as soon as the list holds a spec
    one of whose comma-separated components has no ['='], or has a key other
    than [net-id], [v4-fixed-ip] and [port-id], or a spec none of whose
    components gives [net-id] or [port-id] a non-empty value. *)
Theorem parse_nics_arg_validation :
  (forall specs : list (string * string),
     Forall (fun spec => spec.1 <> EmptyString /\ no_comma spec.1 /\ no_comma spec.2)
            specs ->
     parse_nics_arg
       ((fun spec => "net-id=" +:+ spec.1 +:+ ",v4-fixed-ip=" +:+ spec.2) <$> specs) =
     inr ((fun spec => <["net-id" := spec.1]>
                         (<["v4-fixed-ip" := spec.2]>
                            (<["port-id" := EmptyString]> ∅))) <$> specs))
  /\
  (forall (arg_nics comps : list string),
     comps <> [] -> Forall no_comma comps ->
     PyStr.join "," comps ∈ arg_nics ->
     (exists c, c ∈ comps /\ PyStr.contains "=" c = false) \/
     (exists k v, k +:+ "=" +:+ v ∈ comps /\ PyStr.contains "=" k = false /\
                  k ∉ nic_keys) \/
     (forall v, "net-id=" +:+ v ∈ comps \/ "port-id=" +:+ v ∈ comps ->
                v = EmptyString) ->
     exists bad, bad ∈ arg_nics /\
                 parse_nics_arg arg_nics = inl (CommandError (nic_err_msg bad))).
Proof.
  split.
  - intros specs Hspecs. unfold parse_nics_arg.
    apply (rmap_fmap_ok parse_nic).
    eapply Forall_impl; [exact Hspecs|].
    intros [uuid ip] (Hne & Hu & Hi). simpl. by apply parse_nic_accepts.
  - intros arg_nics comps Hne Hcomma Hin Hbad.
    assert (exists e, parse_nic (PyStr.join "," comps) = inl e) as [e He].
    { destruct Hbad as [(c & Hc & Heq)|[(k & v & Hkv & Hk & Hbad)|Hunset]].
      - by eapply parse_nic_no_equals.
      - by eapply parse_nic_unknown_key.
      - by eapply parse_nic_unset. }
    destruct (rmap_raises parse_nic arg_nics _ e Hin He) as (bad & e' & Hb & Hbe & Hr).
    exists bad. split; [done|]. unfold parse_nics_arg. rewrite Hr.
    by rewrite (parse_nic_error _ _ Hbe).
Qed.

(** ** Guest parameters *)

Lemma add_guest_param_partition d param :
  add_guest_param d param = <[hint_key param := hint_val param]> d.
Proof.
  unfold add_guest_param, hint_key, hint_val.
  destruct (split_partition "=" param) as (rest & -> & <-). done.
Qed.

Lemma guest_params_snoc params param :
  guest_params_of (params ++ [param]) =
  add_guest_param (guest_params_of params) param.
Proof. unfold guest_params_of. by rewrite foldl_app. Qed.

(** C10: the guest-parameter key of a [--params] string is the text before
    its first ['='] and the value is everything after it; a string without
    any ['='] is accepted and maps the whole string to the empty string. *)
Theorem guest_params_first_equals :
  (forall params k v,
     PyStr.contains "=" k = false ->
     guest_params_of (params ++ [k +:+ "=" +:+ v]) =
     <[k := v]> (guest_params_of params))
  /\
  (forall params param,
     PyStr.contains "=" param = false ->
     guest_params_of (params ++ [param]) =
     <[param := EmptyString]> (guest_params_of params)).
Proof.
  split.
  - intros params k v Hk.
    rewrite guest_params_snoc, add_guest_param_partition.
    unfold hint_key, hint_val.
    change (k +:+ "=" +:+ v) with (k +:+ String "=" v).
    by rewrite partition_sep.
  - intros params param Hp.
    rewrite guest_params_snoc, add_guest_param_partition.
    unfold hint_key, hint_val. by rewrite partition_no_sep.
Qed.

(** ** Scheduler hints *)

Lemma hint_values_snoc key hints hint :
  hint_values key (hints ++ [hint]) =
  hint_values key hints ++
  (if decide (hint_key hint = key) then [hint_val hint] else []).
Proof.
  unfold hint_values. rewrite omap_app. simpl. by case_decide.
Qed.

Lemma add_hint_lookup d hint key :
  add_hint d hint !! key =
  if decide (hint_key hint = key) then
    match d !! key with
    | Some (HintStr s) => Some (HintList [s; hint_val hint])
    | Some (HintList l) => Some (HintList (l ++ [hint_val hint]))
    | None => Some (HintStr (hint_val hint))
    end
  else d !! key.
Proof.
  unfold add_hint, hint_key, hint_val.
  destruct (PyStr.partition "=" hint) as [[k m] v]. simpl.
  case_decide as Hk.
  - subst k. destruct (d !! key) as [[s|l]|]; by rewrite lookup_insert_eq.
  - destruct (d !! k) as [old|]; by rewrite lookup_insert_ne.
Qed.

Lemma scheduler_hints_fold hints :
  scheduler_hints_of hints = foldl add_hint ∅ hints.
Proof. by destruct hints. Qed.

(** C5: each [--hint] string is cut at its first ['='] into a key and a
    value. In the resulting dictionary a key given once maps to its value as
    a string, a key given [n >= 2] times maps to the list of its [n] values
    in argument order, and a key never given is absent. *)
Theorem scheduler_hints_grouping :
  (forall k v, PyStr.contains "=" k = false ->
     hint_key (k +:+ "=" +:+ v) = k /\ hint_val (k +:+ "=" +:+ v) = v)
  /\
  (forall hint, PyStr.contains "=" hint = false ->
     hint_key hint = hint /\ hint_val hint = EmptyString)
  /\
  (forall hints key,
     scheduler_hints_of hints !! key = hint_entry (hint_values key hints)).
Proof.
  split; [|split].
  - intros k v Hk. unfold hint_key, hint_val.
    change (k +:+ "=" +:+ v) with (k +:+ String "=" v).
    by rewrite partition_sep.
  - intros hint Hh. unfold hint_key, hint_val. by rewrite partition_no_sep.
  - intros hints key. rewrite scheduler_hints_fold.
    induction hints as [|hint hints IH] using rev_ind; [done|].
    rewrite foldl_app, hint_values_snoc. simpl.
    rewrite add_hint_lookup, IH.
    case_decide; [|by rewrite app_nil_r].
    unfold hint_entry.
    destruct (hint_values key hints) as [|x [|y l]]; done.
Qed.

(** ** Reasoning about the requests a computation issues *)

Lemma calls_app l1 l2 : calls (l1 ++ l2) = calls l1 + calls l2.
Proof. unfold calls. by rewrite filter_app, length_app. Qed.

Lemma calls_only_gets l : only_gets l -> calls l = 0.
Proof.
  unfold calls. induction 1 as [|r l Hr _ IH]; [done|].
  rewrite filter_cons_False; [done|]. by rewrite Hr.
Qed.

Lemma only_gets_app l1 l2 : only_gets l1 -> only_gets l2 -> only_gets (l1 ++ l2).
Proof. apply Forall_app_2. Qed.

Lemma only_gets_nil : only_gets [].
Proof. constructor. Qed.

Lemma issues_weaken {A} (c : M A) (P Q : result A -> list request -> Prop) :
  (forall r rest, P r rest -> Q r rest) -> issues c P -> issues c Q.
Proof. intros HPQ Hc w. destruct (Hc w) as (rest & ? & ?). eauto. Qed.

(** Sequencing: the continuation runs only if the first part returns. *)
Lemma issues_bind {A B} (c : M A) (k : A -> M B) P Q :
  issues c P -> (forall a, issues (k a) (Q a)) ->
  issues (bind c k)
    (fun r rest =>
       (exists e, r = inl e /\ P (inl e) rest) \/
       (exists a l1 l2, rest = l1 ++ l2 /\ P (inr a) l1 /\ Q a r l2)).
Proof.
  intros Hc Hk w. unfold bind.
  destruct (Hc w) as (l1 & Hlog & HP).
  destruct (c w) as [[e|a] w1]; simpl in *.
  - exists l1. split; [done|]. left. eauto.
  - destruct (Hk a w1) as (l2 & Hlog2 & HQ).
    exists (l1 ++ l2). split; [by rewrite Hlog2, Hlog, app_assoc|].
    right. by exists a, l1, l2.
Qed.

Lemma quiet_bind {A B} (c : M A) (k : A -> M B) :
  quiet c -> (forall a, quiet (k a)) -> quiet (bind c k).
Proof.
  intros Hc Hk.
  eapply issues_weaken;
    [|exact (issues_bind c k (fun _ rest => only_gets rest)
               (fun _ _ rest => only_gets rest) Hc Hk)].
  intros r rest [(e & _ & H)|(a & l1 & l2 & -> & H1 & H2)]; [done|].
  by apply only_gets_app.
Qed.

Lemma at_most_bind {A B} n m (c : M A) (k : A -> M B) :
  at_most n c -> (forall a, at_most m (k a)) -> at_most (n + m) (bind c k).
Proof.
  intros Hc Hk.
  eapply issues_weaken;
    [|exact (issues_bind c k (fun _ rest => calls rest <= n)
               (fun _ _ rest => calls rest <= m) Hc Hk)].
  intros r rest [(e & _ & H)|(a & l1 & l2 & -> & H1 & H2)]; simpl in *; [lia|].
  rewrite calls_app. lia.
Qed.

Lemma quiet_at_most {A} (c : M A) n : quiet c -> at_most n c.
Proof.
  apply issues_weaken. intros _ rest H. rewrite calls_only_gets by done. lia.
Qed.

Lemma at_most_bind_l {A B} n (c : M A) (k : A -> M B) :
  quiet c -> (forall a, at_most n (k a)) -> at_most n (bind c k).
Proof.
  intros Hc Hk. exact (at_most_bind 0 n c k (quiet_at_most c 0 Hc) Hk).
Qed.

Lemma at_most_bind_r {A B} n (c : M A) (k : A -> M B) :
  at_most n c -> (forall a, quiet (k a)) -> at_most n (bind c k).
Proof.
  intros Hc Hk.
  pose proof (at_most_bind n 0 c k Hc (fun a => quiet_at_most (k a) 0 (Hk a))) as H.
  by rewrite Nat.add_0_r in H.
Qed.

(** Computations that do not touch the log. *)
Ltac no_request :=
  intros w; exists []; split; [by rewrite app_nil_r|apply only_gets_nil].

Lemma quiet_ret {A} (a : A) : quiet (ret a).
Proof. no_request. Qed.

Lemma quiet_raise {A} e : quiet (@raise A e).
Proof. no_request. Qed.

Lemma quiet_lift {A} (r : result A) : quiet (lift r).
Proof. no_request. Qed.

Lemma quiet_print o : quiet (print o).
Proof. no_request. Qed.

Lemma quiet_read_file path : quiet (read_file path).
Proof.
  intros w. exists []. unfold read_file.
  destruct (files w !! path); (split; [by rewrite app_nil_r|apply only_gets_nil]).
Qed.

Lemma quiet_write_file path contents : quiet (write_file path contents).
Proof.
  intros w. exists []. unfold write_file.
  destruct (writable path); (split; [by rewrite app_nil_r|apply only_gets_nil]).
Qed.

Lemma quiet_get_capabilities : quiet get_capabilities.
Proof. no_request. Qed.

Lemma quiet_set_capabilities caps : quiet (set_capabilities caps).
Proof. no_request. Qed.

Lemma quiet_try_except {A} (c h : M A) :
  quiet c -> quiet h -> quiet (try_except c h).
Proof.
  intros Hc Hh w. unfold try_except.
  destruct (Hc w) as (l1 & Hlog & H1).
  destruct (c w) as [[e|a] w1]; simpl in *; [|by exists l1].
  destruct (Hh w1) as (l2 & Hlog2 & H2).
  exists (l1 ++ l2). split; [by rewrite Hlog2, Hlog, app_assoc|].
  by apply only_gets_app.
Qed.

Lemma quiet_mmap {A B} (f : A -> M B) l :
  (forall x, quiet (f x)) -> quiet (mmap f l).
Proof.
  intros Hf. induction l as [|x l IH]; simpl; [apply quiet_ret|].
  apply quiet_bind; [done|]. intros y.
  apply quiet_bind; [done|]. intros ys. apply quiet_ret.
Qed.

Lemma quiet_mfor {A} (body : A -> M unit) l :
  (forall x, quiet (body x)) -> quiet (mfor l body).
Proof.
  intros Hf. induction l as [|x l IH]; simpl; [apply quiet_ret|].
  by apply quiet_bind.
Qed.

Lemma http_log_step r w :
  http r w = (api (http_log w) r,
              mkWorld (http_log w ++ [r]) (capabilities w) (files w) (stdout w)).
Proof. done. Qed.

Lemma quiet_http_get url : quiet (http (HttpGet url)).
Proof. intros w. exists [HttpGet url]. split; [done|]. by repeat constructor. Qed.

Lemma at_most_http r : at_most 1 (http r).
Proof.
  intros w. exists [r]. split; [done|].
  unfold calls. destruct r; simpl; lia.
Qed.

Create HintDb rest.
#[local] Hint Resolve quiet_ret quiet_raise quiet_lift quiet_print
  quiet_read_file quiet_write_file quiet_get_capabilities
  quiet_set_capabilities quiet_http_get : rest.

(** Walk through a computation that is made of lookups only. *)
Ltac quiet_step :=
  match goal with
  | |- quiet (bind _ _) => apply quiet_bind; [|intros ?]
  | |- quiet (try_except _ _) => apply quiet_try_except
  | |- quiet (mmap _ _) => apply quiet_mmap; intros ?
  | |- quiet (mfor _ _) => apply quiet_mfor; intros ?
  | |- quiet (match ?x with _ => _ end) => destruct x
  | |- quiet _ => solve [auto with rest]
  end.
Ltac quiet_walk := repeat quiet_step.

Lemma quiet_manager_get ident : quiet (manager_get ident).
Proof. unfold manager_get. quiet_walk. Qed.

(** A search asks, it never acts. *)
Lemma quiet_run_search {A} (l : search A) : quiet (run_search l).
Proof.
  induction l as [a|e|url next IH]; [apply quiet_ret|apply quiet_raise|].
  intros w. cbn [run_search]. rewrite http_log_step.
  destruct (IH (api (http_log w) (HttpGet url))
               (mkWorld (http_log w ++ [HttpGet url]) (capabilities w)
                        (files w) (stdout w))) as (rest & Hlog & Hg).
  exists (HttpGet url :: rest). split.
  - rewrite Hlog. cbn [http_log]. by rewrite <- app_assoc.
  - by constructor.
Qed.

#[local] Hint Resolve quiet_run_search : rest.

Lemma quiet_find_server name_or_id : quiet (_find_server name_or_id).
Proof. unfold _find_server. quiet_walk. Qed.

#[local] Hint Resolve quiet_manager_get quiet_find_server : rest.

Lemma quiet_get_each info : quiet (get_each info).
Proof. unfold get_each. quiet_walk. Qed.

Lemma quiet_print_server server minimal : quiet (_print_server server minimal).
Proof. unfold _print_server. quiet_walk. Qed.

Lemma quiet_print_list servers : quiet (_print_list servers).
Proof. unfold _print_list. quiet_walk. Qed.

Lemma quiet_setup_capabilities : quiet setup_capabilities.
Proof. unfold setup_capabilities, get_info. quiet_walk. Qed.

#[local] Hint Resolve quiet_get_each quiet_print_server quiet_print_list
  quiet_setup_capabilities : rest.

Lemma quiet_ensure_capabilities : quiet ensure_capabilities.
Proof. unfold ensure_capabilities. quiet_walk. Qed.

Lemma quiet_read_capabilities : quiet read_capabilities.
Proof. unfold read_capabilities. quiet_walk. Qed.

#[local] Hint Resolve quiet_ensure_capabilities quiet_read_capabilities : rest.

Lemma quiet_satisfies requirements : quiet (satisfies requirements).
Proof. unfold satisfies. quiet_walk. Qed.

(** *** The manager's methods: one call each *)

Lemma at_most_action action ident info : at_most 1 (_action action ident info).
Proof. apply at_most_http. Qed.

(** A call followed by lookups. *)
Ltac one_call :=
  apply at_most_bind_r; [first [apply at_most_action|apply at_most_http]|];
  intros ?; quiet_walk.

Lemma at_most_start_live_image server name user_data guest_params
    security_groups availability_zone num_instances key_name scheduler_hints
    networks :
  at_most 1 (start_live_image server name user_data guest_params
               security_groups availability_zone num_instances key_name
               scheduler_hints networks).
Proof. unfold start_live_image. one_call. Qed.

Lemma at_most_create_live_image server name :
  at_most 1 (create_live_image server name).
Proof. unfold create_live_image. one_call. Qed.

Lemma at_most_delete_live_image server : at_most 1 (delete_live_image server).
Proof. apply at_most_action. Qed.

Lemma at_most_migrate server dest : at_most 1 (migrate server dest).
Proof. apply at_most_action. Qed.

Lemma at_most_list_live_image_servers server :
  at_most 1 (list_live_image_servers server).
Proof. unfold list_live_image_servers. one_call. Qed.

Lemma at_most_list_live_images server : at_most 1 (list_live_images server).
Proof. unfold list_live_images. one_call. Qed.

Lemma at_most_export server : at_most 1 (export server).
Proof.
  unfold export. apply at_most_bind_l; [quiet_walk|].
  intros i. apply at_most_action.
Qed.

Lemma at_most_import_instance data : at_most 1 (import_instance data).
Proof. unfold import_instance, _create. one_call. Qed.

Lemma at_most_install_policy policy wait : at_most 1 (install_policy policy wait).
Proof. apply at_most_http. Qed.

Lemma at_most_get_policy server : at_most 1 (get_policy server).
Proof. apply at_most_action. Qed.

(** *** The handlers *)

(** Lookups, then a part that makes at most one call. *)
Ltac after_lookups :=
  repeat (apply at_most_bind_l; [solve [quiet_walk]|intros ?]).

(** One call, then only lookups and printing. *)
Ltac then_lookups c :=
  apply at_most_bind_r; [apply c|intros ?; quiet_walk].

Lemma at_most_do_live_image_start args : at_most 1 (do_live_image_start args).
Proof.
  unfold do_live_image_start.
  destruct (negb _); [apply quiet_at_most; quiet_walk|].
  after_lookups. then_lookups at_most_start_live_image.
Qed.

Lemma at_most_do_live_image_create args : at_most 1 (do_live_image_create args).
Proof.
  unfold do_live_image_create.
  after_lookups. then_lookups at_most_create_live_image.
Qed.

Lemma at_most_do_live_image_delete args : at_most 1 (do_live_image_delete args).
Proof.
  unfold do_live_image_delete.
  after_lookups. then_lookups at_most_delete_live_image.
Qed.

Lemma at_most_do_cobalt_migrate args : at_most 1 (do_cobalt_migrate args).
Proof.
  unfold do_cobalt_migrate. after_lookups. then_lookups at_most_migrate.
Qed.

Lemma at_most_do_live_image_servers args : at_most 1 (do_live_image_servers args).
Proof.
  unfold do_live_image_servers.
  after_lookups. then_lookups at_most_list_live_image_servers.
Qed.

Lemma at_most_do_live_image_list args : at_most 1 (do_live_image_list args).
Proof.
  unfold do_live_image_list.
  after_lookups. then_lookups at_most_list_live_images.
Qed.

Lemma at_most_do_live_image_export args : at_most 1 (do_live_image_export args).
Proof.
  unfold do_live_image_export. after_lookups. then_lookups at_most_export.
Qed.

Lemma at_most_do_live_image_import args : at_most 1 (do_live_image_import args).
Proof.
  unfold do_live_image_import.
  after_lookups. then_lookups at_most_import_instance.
Qed.

Lemma at_most_do_install_policy args : at_most 1 (do_install_policy args).
Proof.
  unfold do_install_policy. after_lookups. then_lookups at_most_install_policy.
Qed.

Lemma at_most_do_get_policy args : at_most 1 (do_get_policy args).
Proof.
  unfold do_get_policy. after_lookups. then_lookups at_most_get_policy.
Qed.

Lemma quiet_do_cobalt_capabilities args : quiet (do_cobalt_capabilities args).
Proof. unfold do_cobalt_capabilities. quiet_walk. Qed.

(** *** The one call of each handler *)

Lemma single_call_lookups_first {A B} P (c : M A) (k : A -> M B) :
  quiet c -> (forall a, issues (k a) (single_call P)) ->
  issues (bind c k) (single_call P).
Proof.
  intros Hc Hk.
  eapply issues_weaken;
    [|exact (issues_bind c k (fun _ rest => only_gets rest)
               (fun _ => single_call P) Hc Hk)].
  intros r rest [(e & -> & H)|(a & l1 & l2 & -> & H1 & H2)].
  - left. eauto.
  - destruct H2 as [[Hg He]|(g1 & call & g2 & -> & Hg1 & Hrest)].
    + left. split; [by apply only_gets_app|done].
    + right. exists (l1 ++ g1), call, g2.
      split; [by rewrite app_assoc|]. split; [by apply only_gets_app|done].
Qed.

Lemma single_call_lookups_last {A B} P (c : M A) (k : A -> M B) :
  issues c (single_call P) -> (forall a, quiet (k a)) ->
  issues (bind c k) (single_call P).
Proof.
  intros Hc Hk.
  eapply issues_weaken;
    [|exact (issues_bind c k (single_call P)
               (fun _ _ rest => only_gets rest) Hc Hk)].
  intros r rest [(e & -> & H)|(a & l1 & l2 & -> & H1 & H2)].
  - destruct H as [[Hg _]|H]; [|by right].
    left. split; [done|by eexists].
  - destruct H1 as [[_ [e He]]|(g1 & call & g2 & -> & Hg1 & Hg2 & Hrest)];
      [done|].
    right. exists g1, call, (g2 ++ l2).
    split; [by rewrite <- app_assoc|]. split; [done|].
    split; [by apply only_gets_app|done].
Qed.

Lemma single_call_http (P : request -> Prop) r :
  is_call r = true -> P r -> issues (http r) (single_call P).
Proof.
  intros Hr HP w. exists [r]. split; [done|].
  right. exists [], r, []. split; [done|].
  split; [constructor|]. split; [constructor|done].
Qed.

Lemma single_call_raise {A} P e : issues (@raise A e) (single_call P).
Proof.
  intros w. exists []. split; [by rewrite app_nil_r|].
  left. split; [constructor|by eexists].
Qed.

(** Lookups, the call, lookups. *)
Ltac call_step :=
  first [ progress cbv zeta
        | apply single_call_http;
            [reflexivity|first [reflexivity|by eexists _, _]]
        | apply single_call_lookups_first; [solve [quiet_walk]|intros ?]
        | apply single_call_lookups_last; [|intros ?; solve [quiet_walk]] ].
Ltac call_walk := repeat call_step.

Lemma do_live_image_start_shape args :
  issues (do_live_image_start args) (single_call is_launch).
Proof.
  unfold do_live_image_start.
  destruct (negb _); [apply single_call_raise|].
  unfold start_live_image, _action, is_launch. call_walk.
Qed.

(** Whatever a handler with a call to make sends, it is that call, once,
    among lookups, unless it failed before making it. *)
Lemma handler_single_call c args :
  call_of c <> None ->
  issues (handler c args) (single_call (fun r => makes c r = true)).
Proof.
  intros Hc. destruct c; try done; cbn [handler];
    unfold do_launch, do_bless, do_discard, do_gc_migrate, do_list_launched,
      do_list_blessed, do_live_image_start, do_live_image_create,
      do_live_image_delete, do_cobalt_migrate, do_live_image_servers,
      do_live_image_list, do_live_image_export, do_live_image_import,
      do_install_policy, do_get_policy;
    try (destruct (negb _); [apply single_call_raise|]);
    unfold start_live_image, create_live_image, delete_live_image, migrate,
      list_live_image_servers, list_live_images, export, import_instance,
      install_policy, get_policy, _create, _action;
    call_walk.
Qed.

Lemma calls_single gets1 call gets2 :
  only_gets gets1 -> only_gets gets2 -> is_call call = true ->
  calls (gets1 ++ call :: gets2) = 1.
Proof.
  intros H1 H2 Hc. rewrite calls_app, (calls_only_gets _ H1).
  change (call :: gets2) with ([call] ++ gets2).
  rewrite calls_app, (calls_only_gets _ H2).
  unfold calls. by rewrite filter_cons_True.
Qed.

Lemma makes_is_call c r : makes c r = true -> is_call r = true.
Proof. unfold makes. by destruct (call_of c) as [[?|?]|], r. Qed.

Lemma at_most_handler c args :
  c <> cobalt_install_agent -> c <> gc_install_agent ->
  at_most 1 (handler c args).
Proof.
  intros H1 H2. destruct c; try done; simpl;
    unfold do_launch, do_bless, do_discard, do_gc_migrate, do_list_launched,
      do_list_blessed;
    first [ apply at_most_do_live_image_start
          | apply at_most_do_live_image_create
          | apply at_most_do_live_image_delete
          | apply at_most_do_cobalt_migrate
          | apply at_most_do_live_image_servers
          | apply at_most_do_live_image_list
          | apply at_most_do_live_image_export
          | apply at_most_do_live_image_import
          | apply at_most_do_install_policy
          | apply at_most_do_get_policy
          | apply quiet_at_most, quiet_do_cobalt_capabilities ].
Qed.

(** *** Runs that stop before the call *)

Lemma sent_nil w : sent w [] = w.
Proof. unfold sent. rewrite app_nil_r. by destruct w. Qed.

Lemma sent_sent w l1 l2 : sent (sent w l1) l2 = sent w (l1 ++ l2).
Proof. unfold sent. cbn [http_log capabilities files stdout]. by rewrite app_assoc. Qed.

(** A search changes the world by the GETs it sends, and by nothing else. *)
Lemma run_search_sent {A} (l : search A) w :
  exists gets, (run_search l w).2 = sent w gets /\ only_gets gets.
Proof.
  revert w. induction l as [a|e|url next IH]; intros w.
  - exists []. split; [by rewrite sent_nil|constructor].
  - exists []. split; [by rewrite sent_nil|constructor].
  - cbn [run_search]. rewrite http_log_step.
    destruct (IH (api (http_log w) (HttpGet url))
                 (sent w [HttpGet url])) as (gets & Hw & Hg).
    exists (HttpGet url :: gets). split; [|by constructor].
    unfold sent at 1 in Hw. rewrite Hw, sent_sent. done.
Qed.

Lemma find_server_sent name_or_id w :
  exists gets, (_find_server name_or_id w).2 = sent w gets /\ only_gets gets.
Proof.
  unfold _find_server, bind.
  destruct (run_search_sent (find_resource name_or_id) w) as (gets & Hw & Hg).
  exists gets. split; [|done].
  by destruct (run_search _ w) as [[e|info] w1].
Qed.

Lemma bind_fails {A B} (c : M A) (k : A -> M B) w e w' :
  c w = (inl e, w') -> bind c k w = (inl e, w').
Proof. intros Hc. unfold bind. by rewrite Hc. Qed.

Lemma bind_returns {A B} (c : M A) (k : A -> M B) w a w' :
  c w = (inr a, w') -> bind c k w = k a w'.
Proof. intros Hc. unfold bind. by rewrite Hc. Qed.

(** When the search a handler starts with fails, so does the handler, there
    and then. *)
Lemma handler_lookup_fails c args w name_or_id e w1 :
  looked_up c args = Some name_or_id ->
  _find_server name_or_id w = (inl e, w1) ->
  handler c args w = (inl e, w1).
Proof.
  intros Hlook Hfind.
  destruct c; simpl in Hlook; try done;
    try (destruct (opt_truthy (Args.live_image args)) eqn:Hli; [|done]);
    injection Hlook as <-; simpl;
    unfold do_launch, do_bless, do_discard, do_gc_migrate, do_list_launched,
      do_list_blessed, do_gc_install_agent, do_live_image_start,
      do_live_image_create, do_live_image_delete, do_cobalt_migrate,
      do_live_image_servers, do_live_image_list, do_live_image_export,
      do_get_policy, do_cobalt_install_agent;
    simpl; rewrite ?Hli; simpl; by apply bind_fails.
Qed.

Lemma user_data_step option_value w :
  match option_value with
  | Some path =>
      if PyStr.truthy path
      then bind (read_file path) (fun contents => ret (UDFile contents))
      else ret UDNone
  | None => ret UDNone
  end w = (read_user_data (files w) option_value, w).
Proof.
  unfold read_user_data. destruct option_value as [path|]; [|done].
  destruct (PyStr.truthy path); [|done].
  unfold bind, read_file. by destruct (files w !! path).
Qed.

(** With a live-image given, [do_live_image_start] checks the user-data
    file, the NICs and the number of instances after the search and before
    the action: when one of them is wrong it raises having searched only. *)
Lemma do_live_image_start_invalid args w :
  opt_truthy (Args.live_image args) = true ->
  (exists e, read_user_data (files w) (Args.user_data args) = inl e) \/
  (exists e, parse_nics_arg (Args.nics args) = inl e) \/
  (exists e, py_int (Args.num_instances args) = inl e) ->
  exists e gets,
    do_live_image_start args w = (inl e, sent w gets) /\ only_gets gets.
Proof.
  intros Hli Hbad. unfold do_live_image_start. rewrite Hli. cbn [negb].
  unfold bind at 1.
  destruct (find_server_sent (positional (Args.live_image args)) w)
    as (gets & Hw & Hg).
  destruct (_find_server _ w) as [[e|server] w1]; cbn [snd] in Hw; subst w1;
    [by exists e, gets|].
  unfold bind at 1. rewrite user_data_step. cbn [sent files].
  destruct (read_user_data (files w) (Args.user_data args)) as [e|user_data];
    [by exists e, gets|].
  unfold bind at 1, lift at 1.
  destruct (parse_nics_arg (Args.nics args)) as [e|nics]; [by exists e, gets|].
  unfold bind at 1, lift at 1.
  destruct (py_int (Args.num_instances args)) as [e|n]; [by exists e, gets|].
  exfalso. by destruct Hbad as [[e He]|[[e He]|[e He]]].
Qed.

(** The manager's [start_live_image] sends the [gc_launch] action, with the
    shaped parameters, before anything else; lookups follow. *)
Lemma start_live_image_requests server name user_data guest_params
    security_groups availability_zone num_instances key_name scheduler_hints
    networks w :
  exists gets,
    http_log (start_live_image server name user_data guest_params
                security_groups availability_zone num_instances key_name
                scheduler_hints networks w).2 =
    http_log w ++
      ServerAction "gc_launch" (server_id server)
        (Some (PDict (launch_params name user_data guest_params
                        security_groups availability_zone num_instances
                        key_name scheduler_hints networks))) :: gets /\
    only_gets gets.
Proof.
  unfold start_live_image, _action, bind. rewrite http_log_step.
  destruct (api _ _) as [e|info]; simpl.
  - exists []. split; [done|constructor].
  - destruct (quiet_get_each info
               (mkWorld (http_log w ++ [ServerAction "gc_launch" (server_id server)
                  (Some (PDict (launch_params name user_data guest_params
                        security_groups availability_zone num_instances
                        key_name scheduler_hints networks)))])
                  (capabilities w) (files w) (stdout w))) as (gets & Hlog & Hg).
    exists gets. split; [|done]. rewrite Hlog. simpl. by rewrite <- app_assoc.
Qed.

(** C9: when [--live-image] is missing or empty, [do_live_image_start]
    raises the command error "you need to provide a live-image ID" and
    leaves the world as it found it: nothing was sent to the REST client. *)
Theorem live_image_required args w :
  Args.live_image args = None \/ Args.live_image args = Some EmptyString ->
  do_live_image_start args w =
  (inl (CommandError "you need to provide a live-image ID"), w).
Proof.
  intros H. unfold do_live_image_start.
  by destruct H as [-> | ->].
Qed.

(** C3, as the code has it. A handler that has a call to make -- every one
    but [cobalt-capabilities] and the two that install the agent -- sends,
    when it returns, exactly one action or POST through the REST client:
    its own, among GET lookups. Whether they return or raise, these
    handlers and [cobalt-capabilities] send at most one, and
    [cobalt-capabilities] none. A [do_live_image_start] without a
    live-image raises having sent nothing; with a wrong user-data file, NIC
    or number of instances it raises having sent lookups only; and a
    handler whose first search fails raises that failure, having sent the
    GETs of the search only. The handlers that install the agent send
    nothing of their own after their search: they hand the server found to
    [agent.install]. A [do_live_image_start] that returns has sent exactly
    one call, the [gc_launch] action, and the manager's [start_live_image]
    always sends exactly that one. *)
Theorem handlers_single_call :
  (forall c args w w',
     call_of c <> None ->
     handler c args w = (inr tt, w') ->
     exists gets1 call gets2,
       http_log w' = http_log w ++ gets1 ++ call :: gets2 /\
       only_gets gets1 /\ only_gets gets2 /\ makes c call = true /\
       calls (gets1 ++ call :: gets2) = 1)
  /\
  (forall c args w,
     c <> cobalt_install_agent -> c <> gc_install_agent ->
     exists rest,
       http_log (handler c args w).2 = http_log w ++ rest /\ calls rest <= 1)
  /\
  (forall args w,
     exists gets,
       http_log (do_cobalt_capabilities args w).2 = http_log w ++ gets /\
       only_gets gets)
  /\
  (forall args w,
     opt_truthy (Args.live_image args) = false ->
     exists e, do_live_image_start args w = (inl e, w))
  /\
  (forall args w,
     opt_truthy (Args.live_image args) = true ->
     (exists e, read_user_data (files w) (Args.user_data args) = inl e) \/
     (exists e, parse_nics_arg (Args.nics args) = inl e) \/
     (exists e, py_int (Args.num_instances args) = inl e) ->
     exists e gets,
       do_live_image_start args w = (inl e, sent w gets) /\ only_gets gets)
  /\
  (forall c args w name_or_id e w1,
     looked_up c args = Some name_or_id ->
     _find_server name_or_id w = (inl e, w1) ->
     handler c args w = (inl e, w1) /\
     exists gets, w1 = sent w gets /\ only_gets gets)
  /\
  (forall c args w server w1,
     c = cobalt_install_agent \/ c = gc_install_agent ->
     _find_server (Args.server args) w = (inr server, w1) ->
     (exists gets, w1 = sent w gets /\ only_gets gets) /\
     handler c args w =
     agent_install server (Args.user args) (Args.key_path args)
       (Args.agent_location args) (Args.agent_version args) (Args.ip args) w1)
  /\
  (forall args w w',
     do_live_image_start args w = (inr tt, w') ->
     exists gets1 ident params gets2,
       http_log w' =
       http_log w ++ gets1 ++
         ServerAction "gc_launch" ident (Some (PDict params)) :: gets2 /\
       only_gets gets1 /\ only_gets gets2)
  /\
  (forall server name user_data guest_params security_groups
          availability_zone num_instances key_name scheduler_hints networks w,
     exists params gets,
       http_log (start_live_image server name user_data guest_params
                   security_groups availability_zone num_instances key_name
                   scheduler_hints networks w).2 =
       http_log w ++
         ServerAction "gc_launch" (server_id server) (Some (PDict params)) :: gets /\
       only_gets gets).
Proof.
  split; [|split; [|split; [|split; [|split; [|split; [|split; [|split]]]]]]].
  - intros c args w w' Hc Hrun.
    destruct (handler_single_call c args Hc w) as (rest & Hlog & Hshape).
    rewrite Hrun in Hlog, Hshape. cbn [fst snd] in *.
    destruct Hshape as [[_ [e He]]|(g1 & call & g2 & -> & H1 & H2 & Hcall & HP)];
      [done|].
    exists g1, call, g2. split; [done|]. split; [done|]. split; [done|].
    split; [done|]. by apply calls_single.
  - intros c args w H1 H2. by apply at_most_handler.
  - intros args w. apply quiet_do_cobalt_capabilities.
  - intros args w Hli. unfold do_live_image_start. rewrite Hli. by eexists.
  - apply do_live_image_start_invalid.
  - intros c args w name_or_id e w1 Hlook Hfind.
    split; [by eapply handler_lookup_fails|].
    destruct (find_server_sent name_or_id w) as (gets & Hw & Hg).
    rewrite Hfind in Hw. by exists gets.
  - intros c args w server w1 Hc Hfind. split.
    + destruct (find_server_sent (Args.server args) w) as (gets & Hw & Hg).
      rewrite Hfind in Hw. by exists gets.
    + destruct Hc as [-> | ->]; cbn [handler];
        unfold do_gc_install_agent, do_cobalt_install_agent, install_agent;
        by rewrite (bind_returns _ _ _ _ _ Hfind).
  - intros args w w' Hrun.
    destruct (do_live_image_start_shape args w) as (rest & Hlog & Hshape).
    rewrite Hrun in Hlog, Hshape. cbn [fst snd] in *.
    destruct Hshape
      as [[_ [e He]]|(g1 & call & g2 & -> & H1 & H2 & _ & ident & params & ->)];
      [done|].
    by exists g1, ident, params, g2.
  - intros. edestruct start_live_image_requests as (gets & Hlog & Hg).
    eexists _, gets. split; [exact Hlog|done].
Qed.

(** ** The parameters of [gc_launch] *)

Lemma nic_field_nonempty nic_info k :
  PStr <$> nic_field nic_info k = nonempty_field nic_info k.
Proof.
  unfold nic_field, nonempty_field.
  destruct (nic_info !! k) as [v|]; [|done].
  destruct v; by case_decide.
Qed.

Lemma net_data_of_lookup nic_info k :
  net_data_of nic_info !! k =
  if decide (k = "uuid") then nonempty_field nic_info "net-id"
  else if decide (k = "fixed_ip") then nonempty_field nic_info "v4-fixed-ip"
  else if decide (k = "port") then nonempty_field nic_info "port-id"
  else None.
Proof.
  unfold net_data_of. rewrite <- !nic_field_nonempty.
  destruct (nic_field nic_info "net-id"), (nic_field nic_info "v4-fixed-ip"),
    (nic_field nic_info "port-id"); simpl;
    rewrite ?lookup_insert, ?lookup_empty;
    repeat case_decide; simplify_eq; done.
Qed.

Lemma launch_params_user_data name user_data guest_params security_groups
    availability_zone num_instances key_name scheduler_hints networks :
  launch_params name user_data guest_params security_groups availability_zone
    num_instances key_name scheduler_hints networks !! "user_data" =
  match user_data with
  | UDNone => None
  | UDFile contents => Some (PStr (Codec.b64encode contents))
  | UDUnicode [] => None
  | UDUnicode text => Some (PStr (Codec.b64encode (Codec.utf8_encode text)))
  | UDStr EmptyString => None
  | UDStr s => Some (PStr (Codec.b64encode s))
  end.
Proof.
  unfold launch_params.
  destruct networks as [[|nic nets]|], name as [n|],
    user_data as [|contents|[|c text]|[|c s]]; simpl;
    rewrite ?lookup_insert, ?lookup_empty;
    repeat case_decide; simplify_eq; done.
Qed.

Lemma launch_params_networks name user_data guest_params security_groups
    availability_zone num_instances key_name scheduler_hints networks :
  launch_params name user_data guest_params security_groups availability_zone
    num_instances key_name scheduler_hints networks !! "networks" =
  match networks with
  | None => None
  | Some [] => None
  | Some nets => Some (PList ((fun nic_info => PDict (net_data_of nic_info)) <$> nets))
  end.
Proof.
  unfold launch_params.
  destruct networks as [[|nic nets]|], name as [n|],
    (user_data_truthy user_data); cbv zeta;
    rewrite <- ?list_fmap_compose, ?fmap_cons; simpl;
    rewrite ?lookup_insert, ?lookup_empty;
    repeat case_decide; simplify_eq; done.
Qed.

(** C4: the [gc_launch] request of [start_live_image] carries, under
    ['user_data'], the base64 encoding of what a file object yields when
    read, of the UTF-8 encoding of a non-empty unicode string, or of a
    non-empty byte string as given; for [None] or an empty string the
    request has no ['user_data'] key. *)
Theorem user_data_encoding server name user_data guest_params security_groups
    availability_zone num_instances key_name scheduler_hints networks w :
  exists params gets,
    http_log (start_live_image server name user_data guest_params
                security_groups availability_zone num_instances key_name
                scheduler_hints networks w).2 =
    http_log w ++
      ServerAction "gc_launch" (server_id server) (Some (PDict params)) :: gets /\
    only_gets gets /\
    params !! "user_data" =
    match user_data with
    | UDNone => None
    | UDFile contents => Some (PStr (Codec.b64encode contents))
    | UDUnicode [] => None
    | UDUnicode text => Some (PStr (Codec.b64encode (Codec.utf8_encode text)))
    | UDStr EmptyString => None
    | UDStr s => Some (PStr (Codec.b64encode s))
    end.
Proof.
  edestruct start_live_image_requests as (gets & Hlog & Hg).
  eexists _, gets. split; [exact Hlog|]. split; [done|].
  apply launch_params_user_data.
Qed.

(** C6: each NIC dictionary is sent with ['net-id'] renamed to ['uuid'],
    ['v4-fixed-ip'] to ['fixed_ip'] and ['port-id'] to ['port'], a key whose
    value is missing or empty being left out and no other key being sent;
    the [gc_launch] request has a ['networks'] key exactly when the list of
    NICs is not empty, and none when [networks] is [None]. *)
Theorem networks_reshaping :
  (forall nic_info k,
     net_data_of nic_info !! k =
     if decide (k = "uuid") then nonempty_field nic_info "net-id"
     else if decide (k = "fixed_ip") then nonempty_field nic_info "v4-fixed-ip"
     else if decide (k = "port") then nonempty_field nic_info "port-id"
     else None)
  /\
  (forall server name user_data guest_params security_groups
          availability_zone num_instances key_name scheduler_hints networks w,
     exists params gets,
       http_log (start_live_image server name user_data guest_params
                   security_groups availability_zone num_instances key_name
                   scheduler_hints networks w).2 =
       http_log w ++
         ServerAction "gc_launch" (server_id server) (Some (PDict params)) :: gets /\
       only_gets gets /\
       params !! "networks" =
       match networks with
       | None => None
       | Some [] => None
       | Some nets =>
           Some (PList ((fun nic_info => PDict (net_data_of nic_info)) <$> nets))
       end).
Proof.
  split; [apply net_data_of_lookup|].
  intros. edestruct start_live_image_requests as (gets & Hlog & Hg).
  eexists _, gets. split; [exact Hlog|]. split; [done|].
  apply launch_params_networks.
Qed.

(** ** Capabilities *)

Lemma elem_of_keys {V} (d : gmap string V) k : k ∈ keys d <-> is_Some (d !! k).
Proof.
  unfold keys. rewrite list_elem_of_fmap. split.
  - intros ([k' v] & -> & Hin). apply elem_of_map_to_list in Hin. by eexists.
  - intros [v Hv]. exists (k, v). split; [done|]. by apply elem_of_map_to_list.
Qed.

Lemma rmap_total {A B} (f : A -> result B) (g : A -> B) l :
  Forall (fun x => f x = inr (g x)) l -> rmap f l = inr (g <$> l).
Proof.
  induction 1 as [|x l Hx _ IH]; [done|].
  rewrite fmap_cons. simpl. by rewrite Hx, IH.
Qed.

Lemma rfilter_total {A} (p : A -> result bool) (q : A -> bool) l :
  Forall (fun x => p x = inr (q x)) l ->
  rfilter p l = inr (filter (fun x => q x = true) l).
Proof.
  induction 1 as [|x l Hx _ IH]; [done|].
  simpl. rewrite Hx, IH. simpl.
  destruct (q x) eqn:Hq.
  - by rewrite filter_cons_True.
  - rewrite filter_cons_False; [done|]. by rewrite Hq.
Qed.

Lemma reported_spec api_caps x : reported api_caps x = true <-> PStr x ∈ api_caps.
Proof.
  unfold reported. induction api_caps as [|v l IH]; simpl.
  - split; [done|]. intros H. by apply elem_of_nil in H.
  - rewrite orb_true_iff, IH, elem_of_cons. split.
    + intros [Hv|?]; [|by right]. left.
      destruct v; try done. apply bool_decide_eq_true in Hv. by subst.
    + intros [<-|?]; [|by right]. left. by apply bool_decide_eq_true.
Qed.

Lemma capability_holds_list api_caps cap deps :
  CAPABILITIES !! cap = Some deps ->
  capability_holds (PList api_caps) cap =
  inr (forallb (reported api_caps) deps).
Proof.
  intros Hcap. unfold capability_holds, dict_get. rewrite Hcap. simpl.
  rewrite (rmap_total _ (reported api_caps)); [|by apply Forall_forall].
  simpl. f_equal. clear Hcap.
  induction deps as [|r deps IH]; [done|].
  rewrite fmap_cons. simpl. by rewrite IH.
Qed.

Lemma compute_capabilities_list api_caps :
  compute_capabilities (PList api_caps) =
  inr (filter (fun cap =>
                 match CAPABILITIES !! cap with
                 | Some deps => forallb (reported api_caps) deps
                 | None => false
                 end = true) (keys CAPABILITIES)).
Proof.
  unfold compute_capabilities. apply rfilter_total.
  apply Forall_forall. intros cap Hcap.
  apply elem_of_keys in Hcap as [deps Hdeps].
  rewrite Hdeps. by apply capability_holds_list.
Qed.

Lemma forallb_reported api_caps deps :
  forallb (reported api_caps) deps = true <->
  forall api_req, api_req ∈ deps -> PStr api_req ∈ api_caps.
Proof.
  induction deps as [|r deps IH]; simpl.
  - split; [|done]. intros _ x Hx. by apply elem_of_nil in Hx.
  - rewrite andb_true_iff, IH, reported_spec. split.
    + intros [Hr Hrest] x Hx. apply elem_of_cons in Hx as [->|Hx]; auto.
    + intros H. split; [apply H; by left|]. intros x Hx. apply H. by right.
Qed.

(** C1: when the server answers [/gcinfo] with a capability list,
    [setup_capabilities] stores exactly the capability names of the
    [CAPABILITIES] table all of whose listed API dependencies occur in that
    list; a capability with a missing dependency is left out. *)
Theorem setup_capabilities_spec w d api_caps :
  api (http_log w) (HttpGet "/gcinfo") = inr (PDict d) ->
  d !! "capabilities" = Some (PList api_caps) ->
  exists caps,
    setup_capabilities w =
    (inr tt, mkWorld (http_log w ++ [HttpGet "/gcinfo"]) (Some caps)
                     (files w) (stdout w)) /\
    forall cap,
      cap ∈ caps <->
      exists deps,
        CAPABILITIES !! cap = Some deps /\
        forall api_req, api_req ∈ deps -> PStr api_req ∈ api_caps.
Proof.
  intros Hapi Hcaps. eexists. split.
  - unfold setup_capabilities, get_info, bind. rewrite http_log_step, Hapi.
    unfold lift, py_getitem, dict_get. rewrite Hcaps.
    rewrite compute_capabilities_list. reflexivity.
  - intros cap. rewrite list_elem_of_filter, elem_of_keys. split.
    + intros [Hq [deps Hdeps]]. exists deps. split; [done|].
      rewrite Hdeps in Hq. by apply forallb_reported.
    + intros (deps & Hdeps & Hall). rewrite Hdeps. split; [|by eexists].
      by apply forallb_reported.
Qed.

Lemma setup_capabilities_log w :
  http_log (setup_capabilities w).2 = http_log w ++ [HttpGet "/gcinfo"].
Proof.
  unfold setup_capabilities, get_info, bind. rewrite http_log_step.
  destruct (api _ _) as [e|info]; simpl; [done|].
  unfold lift. destruct (py_getitem info "capabilities") as [e|api_caps]; [done|].
  by destruct (compute_capabilities api_caps).
Qed.

Lemma setup_capabilities_sets w w' :
  setup_capabilities w = (inr tt, w') -> is_Some (capabilities w').
Proof.
  unfold setup_capabilities, get_info, bind. rewrite http_log_step.
  destruct (api _ _) as [e|info]; simpl; [done|].
  unfold lift. destruct (py_getitem info "capabilities") as [e|api_caps]; [done|].
  destruct (compute_capabilities api_caps) as [e|caps]; [done|].
  intros [= <-]. by eexists.
Qed.

(** With the attribute set, [satisfies] answers from it and changes nothing. *)
Lemma satisfies_cached w caps requirements :
  capabilities w = Some caps ->
  satisfies requirements w =
  (inr (bool_decide ((list_to_set requirements : gset string) ⊆ list_to_set caps)), w).
Proof.
  intros Hc. unfold satisfies, ensure_capabilities, read_capabilities,
    get_capabilities, bind, ret. simpl. rewrite Hc. simpl. by rewrite Hc.
Qed.

Lemma subset_lists (requirements caps : list string) :
  (list_to_set requirements : gset string) ⊆ list_to_set caps <->
  forall r, r ∈ requirements -> r ∈ caps.
Proof.
  split.
  - intros H r Hr. apply (elem_of_list_to_set (C := gset string)).
    apply H. by apply elem_of_list_to_set.
  - intros H r Hr. apply elem_of_list_to_set. apply H.
    by apply (elem_of_list_to_set (C := gset string)).
Qed.

(** C7: [setup_capabilities] makes one round trip, the [/gcinfo] request,
    and leaves the capability list on the manager. From then on every call
    of [satisfies] answers from that list without sending anything: it
    returns true exactly when the requirements are all in the cached list.
    A call of [satisfies] made before the list is set sends that one
    request itself. *)
Theorem capabilities_cached :
  (forall w w',
     setup_capabilities w = (inr tt, w') ->
     http_log w' = http_log w ++ [HttpGet "/gcinfo"] /\
     exists caps,
       capabilities w' = Some caps /\
       forall reqs_list,
         exists answers,
           mmap satisfies reqs_list w' = (inr answers, w') /\
           Forall2 (fun requirements answer =>
                      answer = true <->
                      forall r, r ∈ requirements -> r ∈ caps)
                   reqs_list answers)
  /\
  (forall w caps requirements,
     capabilities w = Some caps ->
     exists answer,
       satisfies requirements w = (inr answer, w) /\
       (answer = true <-> forall r, r ∈ requirements -> r ∈ caps))
  /\
  (forall w requirements,
     capabilities w = None ->
     http_log (satisfies requirements w).2 = http_log w ++ [HttpGet "/gcinfo"]).
Proof.
  assert (forall w caps requirements,
     capabilities w = Some caps ->
     exists answer,
       satisfies requirements w = (inr answer, w) /\
       (answer = true <-> forall r, r ∈ requirements -> r ∈ caps)) as Hcached.
  { intros w caps requirements Hc. eexists. split; [by apply satisfies_cached|].
    by rewrite bool_decide_eq_true, subset_lists. }
  split; [|split; [exact Hcached|]].
  - intros w w' Hrun. split.
    { pose proof (setup_capabilities_log w) as Hlog. by rewrite Hrun in Hlog. }
    destruct (setup_capabilities_sets w w' Hrun) as [caps Hc].
    exists caps. split; [done|]. intros reqs_list.
    induction reqs_list as [|requirements reqs_list (answers & Hrest & Hall)].
    + exists []. split; [done|constructor].
    + destruct (Hcached w' caps requirements Hc) as (answer & Hone & Hiff).
      exists (answer :: answers). split; [|by constructor].
      simpl. unfold bind. rewrite Hone, Hrest. done.
  - intros w requirements Hc.
    unfold satisfies, ensure_capabilities, get_capabilities, bind.
    rewrite Hc. pose proof (setup_capabilities_log w) as Hlog.
    destruct (setup_capabilities w) as [[e|[]] w1]; simpl in *; [done|].
    unfold read_capabilities, get_capabilities, bind.
    by destruct (capabilities w1).
Qed.

(** ** The override merge *)

Lemma apply_override_plain key value data :
  PyStr.contains "." key = false ->
  apply_override key value data =
  rbind (py_getitem data key) (fun old =>
    match data with
    | PDict d =>
        inr (PDict (<[key := match old with
                             | PList _ => PList (PStr <$> PyStr.split "," value)
                             | _ => PStr value
                             end]> d))
    | _ => inl TypeError
    end).
Proof.
  intros Hkey. funelim (apply_override key value data); [congruence|done].
Qed.

Lemma apply_override_dotted key value data :
  PyStr.contains "." key = true ->
  apply_override key value data =
  rbind (py_getitem data (PyStr.partition "." key).1.1) (fun child =>
  rbind (apply_override (PyStr.partition "." key).2 value child) (fun child' =>
    match data with
    | PDict d => inr (PDict (<[(PyStr.partition "." key).1.1 := child']> d))
    | _ => inl TypeError
    end)).
Proof.
  intros Hkey. funelim (apply_override key value data); [done|congruence].
Qed.

Lemma apply_override_not_dict key value data :
  (forall d, data <> PDict d) -> apply_override key value data = inl TypeError.
Proof.
  intros Hdata.
  destruct (PyStr.contains "." key) eqn:Hkey.
  - rewrite apply_override_dotted by done.
    destruct data; try done. by destruct (Hdata d).
  - rewrite apply_override_plain by done.
    destruct data; try done. by destruct (Hdata d).
Qed.

Lemma contains_app sep a b :
  PyStr.contains sep (a +:+ b) = PyStr.contains sep a || PyStr.contains sep b.
Proof.
  induction a as [|c a IH]; simpl; [done|].
  by destruct (Ascii.eqb c sep).
Qed.

Lemma apply_override_arg_entry data key value :
  PyStr.contains "=" key = false ->
  apply_override_arg data (key +:+ "=" +:+ value) = apply_override key value data.
Proof.
  intros Hkey. unfold apply_override_arg.
  change (key +:+ "=" +:+ value) with (key +:+ String "=" value).
  by rewrite splitn1_sep.
Qed.

Lemma rfold_fmap {A B S} (f : S -> B -> result S) (g : A -> B) l s :
  rfold f (g <$> l) s = rfold (fun s x => f s (g x)) l s.
Proof.
  revert s. induction l as [|x l IH]; intros s; [done|].
  rewrite fmap_cons. simpl. destruct (f s (g x)); simpl; [done|apply IH].
Qed.

Lemma rfold_ext_in {A S} (f g : S -> A -> result S) l s :
  Forall (fun x => forall s, f s x = g s x) l -> rfold f l s = rfold g l s.
Proof.
  intros Hl. revert s. induction Hl as [|x l Hx _ IH]; intros s; [done|].
  simpl. rewrite Hx. destruct (g s x); simpl; [done|apply IH].
Qed.

Lemma import_sends_overridden args w text data data' :
  files w !! Args.data_filename args = Some text ->
  json_load text = inr data ->
  apply_overrides (Args.override args) data = inr data' ->
  exists gets,
    http_log (do_live_image_import args w).2 =
    http_log w ++
      HttpPost "/gc-import-server" (PDict (<["data" := data']> ∅)) :: gets /\
    only_gets gets.
Proof.
  intros Hfile Hjson Hov.
  unfold do_live_image_import, bind, read_file, lift.
  rewrite Hfile, Hjson, Hov.
  unfold import_instance, _create, bind. rewrite http_log_step.
  destruct (api _ _) as [e|resp]; simpl; [exists []; split; [done|constructor]|].
  unfold lift. destruct (resource_of resp) as [e|server];
    [exists []; split; [done|constructor]|].
  match goal with |- context [_print_server server false ?w1] =>
    destruct (quiet_print_server server false w1) as (gets & Hlog & Hg)
  end.
  exists gets. split; [|done]. rewrite Hlog. simpl. by rewrite <- app_assoc.
Qed.

Lemma import_stops_on_error args w text data e :
  files w !! Args.data_filename args = Some text ->
  json_load text = inr data ->
  apply_overrides (Args.override args) data = inl e ->
  do_live_image_import args w = (inl e, w).
Proof.
  intros Hfile Hjson Hov.
  unfold do_live_image_import, bind, read_file, lift.
  by rewrite Hfile, Hjson, Hov.
Qed.

(** C8, as the code has it: an override entry [key=value] replaces the value
    of a key that is already there. A plain key is replaced at the top
    level; a dotted path [a.b] descends into [data['a']] and replaces ['b']
    there (and so on for longer paths); when the value being replaced is a
    list, the new value is the list of the comma-separated parts of
    [value], otherwise it is [value] itself. Where a dictionary lacks the
    key to replace, or the key to descend into, the entry raises [KeyError]
    for that key; where the value to replace in, or to descend into, is not
    a dictionary, it raises [TypeError]; a failure further down the path is
    raised as it is. The entries of the semicolon-separated override string
    are applied from left to right, the first failure ending the run; the
    import request carries the resulting document, and is not sent when an
    entry fails. *)
Theorem override_merge :
  (forall d key value old,
     PyStr.contains "." key = false -> d !! key = Some old ->
     apply_override key value (PDict d) =
     inr (PDict (<[key := match old with
                          | PList _ => PList (PStr <$> PyStr.split "," value)
                          | _ => PStr value
                          end]> d)))
  /\
  (forall d parent rest value child,
     PyStr.contains "." parent = false -> d !! parent = Some child ->
     apply_override (parent +:+ "." +:+ rest) value (PDict d) =
     rbind (apply_override rest value child)
           (fun child' => inr (PDict (<[parent := child']> d))))
  /\
  (forall d sub parent key value old,
     PyStr.contains "." parent = false -> PyStr.contains "." key = false ->
     d !! parent = Some (PDict sub) -> sub !! key = Some old ->
     apply_override (parent +:+ "." +:+ key) value (PDict d) =
     inr (PDict (<[parent :=
                    PDict (<[key := match old with
                                    | PList _ =>
                                        PList (PStr <$> PyStr.split "," value)
                                    | _ => PStr value
                                    end]> sub)]> d)))
  /\
  (forall d key value,
     PyStr.contains "." key = false -> d !! key = None ->
     apply_override key value (PDict d) = inl (KeyError key))
  /\
  (forall d parent rest value,
     PyStr.contains "." parent = false -> d !! parent = None ->
     apply_override (parent +:+ "." +:+ rest) value (PDict d) =
     inl (KeyError parent))
  /\
  (forall key value data,
     (forall d, data <> PDict d) ->
     apply_override key value data = inl TypeError)
  /\
  (forall d parent rest value child,
     PyStr.contains "." parent = false -> d !! parent = Some child ->
     (forall sub, child <> PDict sub) ->
     apply_override (parent +:+ "." +:+ rest) value (PDict d) = inl TypeError)
  /\
  (forall (entries : list (string * string)) data,
     entries <> [] ->
     Forall (fun entry => PyStr.contains ";" entry.1 = false /\
                          PyStr.contains ";" entry.2 = false /\
                          PyStr.contains "=" entry.1 = false) entries ->
     apply_overrides
       (Some (PyStr.join ";" ((fun entry => entry.1 +:+ "=" +:+ entry.2) <$> entries)))
       data =
     rfold (fun data entry => apply_override entry.1 entry.2 data) entries data)
  /\
  (forall args w text data,
     files w !! Args.data_filename args = Some text ->
     json_load text = inr data ->
     match apply_overrides (Args.override args) data with
     | inr data' =>
         exists gets,
           http_log (do_live_image_import args w).2 =
           http_log w ++
             HttpPost "/gc-import-server" (PDict (<["data" := data']> ∅)) :: gets /\
           only_gets gets
     | inl e => do_live_image_import args w = (inl e, w)
     end).
Proof.
  assert (forall d key value old,
     PyStr.contains "." key = false -> d !! key = Some old ->
     apply_override key value (PDict d) =
     inr (PDict (<[key := match old with
                          | PList _ => PList (PStr <$> PyStr.split "," value)
                          | _ => PStr value
                          end]> d))) as Hplain.
  { intros d key value old Hkey Hold. rewrite apply_override_plain by done.
    simpl. unfold dict_get. by rewrite Hold. }
  assert (forall d parent rest value child,
     PyStr.contains "." parent = false -> d !! parent = Some child ->
     apply_override (parent +:+ "." +:+ rest) value (PDict d) =
     rbind (apply_override rest value child)
           (fun child' => inr (PDict (<[parent := child']> d)))) as Hdotted.
  { intros d parent rest value child Hparent Hchild.
    change (parent +:+ "." +:+ rest) with (parent +:+ String "." rest).
    rewrite apply_override_dotted by apply contains_app_sep.
    rewrite partition_sep by done. simpl. unfold dict_get. by rewrite Hchild. }
  repeat split.
  - exact Hplain.
  - exact Hdotted.
  - intros d sub parent key value old Hparent Hkey Hsub Hold.
    rewrite (Hdotted _ _ _ _ _ Hparent Hsub), (Hplain _ _ _ _ Hkey Hold). done.
  - intros d key value Hkey Hnone. rewrite apply_override_plain by done.
    simpl. unfold dict_get. by rewrite Hnone.
  - intros d parent rest value Hparent Hnone.
    change (parent +:+ "." +:+ rest) with (parent +:+ String "." rest).
    rewrite apply_override_dotted by apply contains_app_sep.
    rewrite partition_sep by done. simpl. unfold dict_get. by rewrite Hnone.
  - apply apply_override_not_dict.
  - intros d parent rest value child Hparent Hchild Hnot.
    by rewrite (Hdotted _ _ _ _ _ Hparent Hchild), apply_override_not_dict.
  - intros entries data Hne Hall. unfold apply_overrides.
    rewrite split_join.
    + rewrite rfold_fmap. apply rfold_ext_in.
      eapply Forall_impl; [exact Hall|]. intros [key value] (_ & _ & Hkey) s.
      by apply apply_override_arg_entry.
    + by destruct entries.
    + apply Forall_fmap. eapply Forall_impl; [exact Hall|].
      intros [key value] (Hk & Hv & _). simpl in *.
      rewrite !contains_app, Hk, Hv. done.
  - intros args w text data Hfile Hjson.
    destruct (apply_overrides _ _) as [e|data'] eqn:Hov.
    + by eapply import_stops_on_error.
    + by eapply import_sends_overridden.
Qed.

(** * Further properties of the code *)

(** ** More on [parse_nics_arg] *)

Lemma rmap_inr {A B} (f : A -> result B) l r :
  rmap f l = inr r -> Forall2 (fun x y => f x = inr y) l r.
Proof.
  revert r. induction l as [|x l IH]; simpl; intros r.
  - intros [= <-]. constructor.
  - destruct (f x) as [e|y] eqn:Hx; simpl; [done|].
    destruct (rmap f l) as [e|ys]; simpl; [done|].
    intros [= <-]. constructor; [done|]. by apply IH.
Qed.

Lemma rmap_app_raises {A B} (f : A -> result B) good bad rest ys e :
  rmap f good = inr ys -> f bad = inl e ->
  rmap f (good ++ bad :: rest) = inl e.
Proof.
  revert ys. induction good as [|x good IH]; simpl; intros ys.
  - intros _ Hbad. by rewrite Hbad.
  - destruct (f x) as [e'|y]; simpl; [done|].
    destruct (rmap f good) as [e'|ys'] eqn:Hgood; simpl; [done|].
    intros _ Hbad. by rewrite (IH ys').
Qed.

Lemma parse_nic_kv_inv msg d kv d' :
  parse_nic_kv msg d kv = inr d' ->
  PyStr.contains "=" kv = true /\ hint_key kv ∈ dom d /\
  d' = <[hint_key kv := hint_val kv]> d.
Proof.
  unfold parse_nic_kv.
  destruct (PyStr.splitn 1 "=" kv) as [|k [|v [|]]] eqn:Hsplit; try done.
  apply splitn1_inv in Hsplit as [-> Hk].
  case_decide as Hin; [|done]. intros [= <-].
  unfold hint_key, hint_val. rewrite partition_sep by done. simpl.
  split; [apply contains_app_sep|]. split; [|done]. by apply elem_of_dom.
Qed.

Lemma parse_nic_inv nic_str d :
  parse_nic nic_str = inr d ->
  rfold (parse_nic_kv (nic_err_msg nic_str)) (PyStr.split "," nic_str)
        nic_info_init = inr d /\
  exists net_id port_id,
    d !! "net-id" = Some net_id /\ d !! "port-id" = Some port_id /\
    (net_id <> EmptyString \/ port_id <> EmptyString).
Proof.
  unfold parse_nic.
  destruct (rfold _ _ _) as [e|d0]; simpl; [done|].
  unfold dict_get.
  destruct (d0 !! "net-id") as [n|] eqn:Hn; simpl; [|done].
  destruct (d0 !! "port-id") as [p|] eqn:Hp; simpl; [|done].
  destruct n as [|c n], p as [|c' p]; simpl; try done;
    intros [= <-]; (split; [done|]); eexists _, _; (split; [done|]);
    (split; [done|]); first [by left|by right].
Qed.

(** Every dictionary [parse_nics_arg] returns has exactly the three keys
    [net-id], [v4-fixed-ip] and [port-id], with [net-id] or [port-id] not
    empty; there is one dictionary per argument. *)
Theorem parse_nics_arg_result_shape arg_nics nics :
  parse_nics_arg arg_nics = inr nics ->
  length nics = length arg_nics /\
  Forall (fun d : gmap string string =>
            (forall k, is_Some (d !! k) <-> k ∈ nic_keys) /\
            exists net_id port_id,
              d !! "net-id" = Some net_id /\ d !! "port-id" = Some port_id /\
              (net_id <> EmptyString \/ port_id <> EmptyString)) nics.
Proof.
  intros Hrun. apply rmap_inr in Hrun. split.
  - symmetry. by eapply Forall2_length.
  - induction Hrun as [|s d l r Hd _ IH]; constructor; [|done].
    apply parse_nic_inv in Hd as [Hfold Hset]. split; [|done].
    eapply (rfold_invariant nic_shape); [|apply nic_info_init_shape|exact Hfold].
    intros ?????; by eapply parse_nic_kv_shape.
Qed.

(** The command error names the first argument that does not parse. *)
Theorem parse_nics_arg_first_error good bad rest nics e :
  parse_nics_arg good = inr nics ->
  parse_nics_arg [bad] = inl e ->
  parse_nics_arg (good ++ bad :: rest) = inl (CommandError (nic_err_msg bad)).
Proof.
  unfold parse_nics_arg. intros Hgood Hbad. simpl in Hbad.
  destruct (parse_nic bad) as [e'|d] eqn:Hb; simpl in Hbad; [|done].
  rewrite (rmap_app_raises parse_nic good bad rest nics e' Hgood Hb).
  by rewrite (parse_nic_error _ _ Hb).
Qed.

Lemma rfold_parse_nic_kv_lookup msg comps d0 d k :
  rfold (parse_nic_kv msg) comps d0 = inr d ->
  d !! k = foldl (field_after k) (d0 !! k) comps.
Proof.
  revert d0. induction comps as [|c comps IH]; simpl; intros d0.
  - by intros [= <-].
  - destruct (parse_nic_kv msg d0 c) as [e|d1] eqn:Hc; simpl; [done|].
    intros Hrest. rewrite (IH _ Hrest).
    apply parse_nic_kv_inv in Hc as (_ & _ & ->).
    f_equal. unfold field_after. rewrite lookup_insert. by case_decide.
Qed.

(** In an accepted [--nic] value each key holds the value of the last
    component that names it, and the empty string when none does. *)
Theorem parse_nic_last_wins comps d k :
  comps <> [] -> Forall no_comma comps ->
  parse_nics_arg [PyStr.join "," comps] = inr [d] ->
  k ∈ nic_keys ->
  d !! k = foldl (field_after k) (Some EmptyString) comps.
Proof.
  intros Hne Hcomma Hrun Hk. unfold parse_nics_arg in Hrun. simpl in Hrun.
  destruct (parse_nic _) as [e|d'] eqn:Hd; simpl in Hrun; [done|].
  injection Hrun as <-.
  apply parse_nic_inv in Hd as [Hfold _]. rewrite split_join in Hfold by done.
  rewrite (rfold_parse_nic_kv_lookup _ _ _ _ k Hfold). f_equal.
  unfold nic_keys in Hk. rewrite !elem_of_cons, elem_of_nil in Hk.
  by destruct Hk as [->|[->|[->|[]]]].
Qed.

(** ** More on the guest parameters *)

(** A guest parameter given several times keeps its last value; a key
    never given is absent. *)
Theorem guest_params_last_wins params k :
  guest_params_of params !! k = foldl (field_after k) None params.
Proof.
  unfold guest_params_of.
  change None with ((∅ : gmap string string) !! k).
  generalize (∅ : gmap string string).
  induction params as [|param params IH]; intros d; simpl; [done|].
  rewrite IH, add_guest_param_partition. f_equal.
  unfold field_after. rewrite lookup_insert. by case_decide.
Qed.

(** ** More on the override merge *)

Lemma apply_override_dict_inv key value d r :
  apply_override key value (PDict d) = inr r ->
  exists d' : gmap string pyval,
    r = PDict d' /\ dom d' = dom d /\
    forall k, k <> hint_key_dot key -> d' !! k = d !! k.
Proof.
  unfold hint_key_dot.
  destruct (PyStr.contains "." key) eqn:Hkey.
  - rewrite apply_override_dotted by done. simpl. unfold dict_get.
    destruct (d !! (PyStr.partition "." key).1.1) as [child|] eqn:Hchild;
      simpl; [|done].
    destruct (apply_override _ value child) as [e|child']; simpl; [done|].
    intros [= <-]. eexists. split; [done|]. split.
    + by apply dom_insert_lookup_L.
    + intros k Hk. by rewrite lookup_insert_ne.
  - rewrite apply_override_plain by done. simpl. unfold dict_get.
    rewrite partition_no_sep by done. simpl.
    destruct (d !! key) as [old|] eqn:Hold; simpl; [|done].
    intros [= <-]. eexists. split; [done|]. split.
    + by apply dom_insert_lookup_L.
    + intros k Hk. by rewrite lookup_insert_ne.
Qed.

(** An override never adds or removes a key of the document: it fails on
    anything but a dictionary, and on success the result is a dictionary
    with the same keys, in which only the entry under the first component
    of the path can have changed. *)
Theorem override_keeps_keys key value data r :
  apply_override key value data = inr r ->
  exists d d' : gmap string pyval,
    data = PDict d /\ r = PDict d' /\ dom d' = dom d /\
    forall k, k <> hint_key_dot key -> d' !! k = d !! k.
Proof.
  intros Hrun. destruct data as [| | | | |d];
    try (rewrite apply_override_not_dict in Hrun by done; done).
  apply apply_override_dict_inv in Hrun as (d' & -> & Hdom & Hother).
  by exists d, d'.
Qed.

Lemma rfold_first_failure {A S} (f : S -> A -> result S) l x s :
  x ∈ l -> (forall s, exists e, f s x = inl e) -> exists e, rfold f l s = inl e.
Proof.
  intros Hin Hx.
  apply (rfold_raises (fun _ => True) f l x s); [done| |done|done].
  intros s' _. apply Hx.
Qed.

(** An override string with an entry that has no ['='] -- the empty string
    is one -- makes the import fail before anything is sent. *)
Theorem override_entry_needs_equals args w text data o entry :
  files w !! Args.data_filename args = Some text ->
  json_load text = inr data ->
  Args.override args = Some o ->
  entry ∈ PyStr.split ";" o -> PyStr.contains "=" entry = false ->
  exists e, do_live_image_import args w = (inl e, w).
Proof.
  intros Hfile Hjson Ho Hentry Heq.
  assert (exists e, apply_overrides (Args.override args) data = inl e) as [e He].
  { rewrite Ho. unfold apply_overrides.
    apply (rfold_first_failure _ _ entry); [done|].
    intros s. unfold apply_override_arg. rewrite splitn1_no_sep by done.
    by eexists. }
  exists e. by eapply import_stops_on_error.
Qed.

(** ** More on the capabilities *)

Lemma rfilter_sublist {A} (p : A -> result bool) l r :
  rfilter p l = inr r -> r `sublist_of` l.
Proof.
  revert r. induction l as [|x l IH]; simpl; intros r.
  - by intros [= <-].
  - destruct (p x) as [e|keep]; simpl; [done|].
    destruct (rfilter p l) as [e|rest]; simpl; [done|].
    intros [= <-]. destruct keep.
    + apply sublist_skip. by apply IH.
    + apply sublist_cons. by apply IH.
Qed.

Lemma keys_NoDup {V} (d : gmap string V) : NoDup (keys d).
Proof. apply NoDup_fst_map_to_list. Qed.

Lemma setup_capabilities_inv w w' :
  setup_capabilities w = (inr tt, w') ->
  exists caps, capabilities w' = Some caps /\ caps `sublist_of` keys CAPABILITIES.
Proof.
  unfold setup_capabilities, get_info, bind. rewrite http_log_step.
  destruct (api _ _) as [e|info]; simpl; [done|].
  unfold lift. destruct (py_getitem info "capabilities") as [e|api_caps]; [done|].
  destruct (compute_capabilities api_caps) as [e|caps] eqn:Hcaps; [done|].
  intros [= <-]. exists caps. split; [done|]. by eapply rfilter_sublist.
Qed.

(** Whatever the server answers, the capabilities [setup_capabilities]
    stores are names of the [CAPABILITIES] table, each at most once. *)
Theorem capabilities_from_table w w' :
  setup_capabilities w = (inr tt, w') ->
  exists caps,
    capabilities w' = Some caps /\ NoDup caps /\
    forall cap, cap ∈ caps -> is_Some (CAPABILITIES !! cap).
Proof.
  intros Hrun. apply setup_capabilities_inv in Hrun as (caps & Hc & Hsub).
  exists caps. split; [done|]. split.
  - exact (sublist_NoDup _ _ (keys_NoDup CAPABILITIES) Hsub).
  - intros cap Hcap. apply elem_of_keys. by eapply elem_of_sublist.
Qed.

(** A failed round trip caches nothing: the request has been sent, the
    exception is the server's or the [KeyError] of an answer without
    ['capabilities'], and the manager's attribute is as before. *)
Theorem setup_capabilities_failure w e w' :
  setup_capabilities w = (inl e, w') ->
  w' = mkWorld (http_log w ++ [HttpGet "/gcinfo"]) (capabilities w)
               (files w) (stdout w) /\
  (api (http_log w) (HttpGet "/gcinfo") = inl e \/
   exists info,
     api (http_log w) (HttpGet "/gcinfo") = inr info /\
     (py_getitem info "capabilities" = inl e \/
      exists api_caps,
        py_getitem info "capabilities" = inr api_caps /\
        compute_capabilities api_caps = inl e)).
Proof.
  unfold setup_capabilities, get_info, bind. rewrite http_log_step.
  destruct (api _ _) as [e0|info]; simpl.
  { intros [= <- <-]. split; [done|by left]. }
  unfold lift. destruct (py_getitem info "capabilities") as [e0|api_caps] eqn:Hget.
  { intros [= <- <-]. split; [done|]. right. exists info. split; [done|by left]. }
  destruct (compute_capabilities api_caps) as [e0|caps] eqn:Hcaps; [|done].
  intros [= <- <-]. split; [done|]. right. exists info. split; [done|].
  right. exists api_caps. split; [exact Hget|exact Hcaps].
Qed.

(** A requirement that is not a capability of the table is never
    satisfied, whatever the server reported. *)
Theorem satisfies_unknown_requirement w w' requirements r :
  setup_capabilities w = (inr tt, w') ->
  r ∈ requirements -> CAPABILITIES !! r = None ->
  satisfies requirements w' = (inr false, w').
Proof.
  intros Hrun Hr Hnone.
  apply setup_capabilities_inv in Hrun as (caps & Hc & Hsub).
  rewrite (satisfies_cached w' caps requirements Hc). do 2 f_equal.
  apply bool_decide_eq_false. rewrite subset_lists. intros Hall.
  specialize (Hall r Hr).
  assert (r ∈ keys CAPABILITIES) as Hk by by eapply elem_of_sublist.
  apply elem_of_keys in Hk as [deps Hdeps]. congruence.
Qed.

(** A server that reports more capabilities never enables fewer. *)
Theorem capabilities_monotone (reported1 reported2 : list pyval) caps1 caps2 :
  (forall v, v ∈ reported1 -> v ∈ reported2) ->
  compute_capabilities (PList reported1) = inr caps1 ->
  compute_capabilities (PList reported2) = inr caps2 ->
  forall cap, cap ∈ caps1 -> cap ∈ caps2.
Proof.
  intros Hsub. rewrite !compute_capabilities_list. intros H1 H2 cap.
  apply (inj inr) in H1, H2. subst caps1 caps2.
  rewrite !list_elem_of_filter. intros [Hq Hk]. split; [|exact Hk].
  destruct (CAPABILITIES !! cap) as [deps|]; [|done].
  apply forallb_reported. intros api_req Hreq. apply Hsub.
  by apply (proj1 (forallb_reported reported1 deps) Hq).
Qed.

(** ** [CoServerManager.__init__] *)

(** Once a manager is initialised the client has both attributes; no
    attribute the client already had is replaced, so the first manager
    stays in place when a second one is created. *)
Theorem manager_init_registers {Mgr} (self other : Mgr) (client : gmap string Mgr) :
  is_Some (manager_init self client !! "cobalt") /\
  is_Some (manager_init self client !! "gridcentric") /\
  (forall k m, client !! k = Some m -> manager_init self client !! k = Some m) /\
  (forall k, manager_init self client !! k =
             if decide ((k = "cobalt" \/ k = "gridcentric") /\ client !! k = None)
             then Some self else client !! k) /\
  manager_init other (manager_init self client) = manager_init self client.
Proof.
  assert (forall (me : Mgr) c k,
            manager_init me c !! k =
            if decide ((k = "cobalt" \/ k = "gridcentric") /\ c !! k = None)
            then Some me else c !! k) as Hlookup.
  { intros me c k. unfold manager_init.
    destruct (c !! "cobalt") as [m1|] eqn:H1; simpl.
    - destruct (c !! "gridcentric") as [m2|] eqn:H2; simpl.
      + case_decide as H; [|done]. destruct H as [[-> | ->] H]; congruence.
      + rewrite lookup_insert. case_decide as Hk.
        * subst k. rewrite decide_True; [done|]. split; [by right|done].
        * case_decide as H; [|done]. destruct H as [[-> | ->] H]; congruence.
    - rewrite lookup_insert_ne by done.
      destruct (c !! "gridcentric") as [m2|] eqn:H2; simpl.
      + rewrite lookup_insert. case_decide as Hk.
        * subst k. rewrite decide_True; [done|]. split; [by left|done].
        * case_decide as H; [|done]. destruct H as [[-> | ->] H]; congruence.
      + rewrite !lookup_insert. case_decide as Hk.
        * subst k. rewrite decide_True; [done|]. split; [by right|done].
        * case_decide as Hk'.
          -- subst k. rewrite decide_True; [done|]. split; [by left|done].
          -- case_decide as H; [|done]. destruct H as [[-> | ->] H]; congruence. }
  assert (forall (me : Mgr) c k, (k = "cobalt" \/ k = "gridcentric") ->
            is_Some (manager_init me c !! k)) as Hset.
  { intros me c k Hk. rewrite Hlookup. case_decide as H; [done|].
    destruct (c !! k) eqn:Hc; [done|]. destruct H. by split. }
  split; [apply Hset; by left|]. split; [apply Hset; by right|].
  split; [|split; [exact (Hlookup self client)|]].
  - intros k m Hk. rewrite Hlookup. case_decide as H; [|done].
    destruct H as [_ H]. congruence.
  - apply map_eq. intros k. rewrite (Hlookup other). case_decide as H; [|done].
    destruct H as [Hk Hnone]. destruct (Hset self client k Hk) as [m Hm].
    congruence.
Qed.

(** ** What the handlers print and send *)

Lemma printed_nil w : printed w [] = w.
Proof. unfold printed. rewrite app_nil_r. by destruct w. Qed.

Lemma mfor_print {A} (f : A -> output) l w :
  mfor l (fun x => print (f x)) w = (inr tt, printed w (f <$> l)).
Proof.
  revert w. induction l as [|x l IH]; intros w; simpl.
  - by rewrite printed_nil.
  - unfold bind, print at 1. rewrite IH. unfold printed. simpl.
    by rewrite <- app_assoc.
Qed.

Lemma lookup_foldl_delete {V} (m : gmap string V) l k :
  foldl (fun m k => delete k m) m l !! k =
  if decide (k ∈ l) then None else m !! k.
Proof.
  revert m. induction l as [|x l IH]; intros m.
  - cbn [foldl]. rewrite decide_False; [done|]. apply not_elem_of_nil.
  - cbn [foldl]. rewrite IH. destruct (decide (k ∈ l)) as [Hin|Hout].
    + rewrite decide_True; [done|]. apply elem_of_cons. by right.
    + destruct (decide (k = x)) as [->|Hne].
      * rewrite decide_True; [|apply elem_of_cons; by left].
        by rewrite lookup_delete_eq.
      * rewrite decide_False; [by rewrite lookup_delete_ne|].
        rewrite elem_of_cons. by intros [?|?].
Qed.

(** Every capability of the table has a help text, and nothing else has. *)
Lemma caps_help_complete k : is_Some (CAPS_HELP !! k) <-> is_Some (CAPABILITIES !! k).
Proof.
  rewrite <- !elem_of_dom. unfold CAPS_HELP, CAPABILITIES.
  rewrite !dom_list_to_map_L. reflexivity.
Qed.

Lemma filter_none {A} (P : A -> Prop) `{!forall x, Decision (P x)} (l : list A) :
  Forall (fun x => ~ P x) l -> filter P l = [].
Proof.
  induction 1 as [|x l Hx _ IH]; [done|].
  by rewrite filter_cons_False.
Qed.

Lemma caps_help_padding :
  foldl (fun (caps : gmap string string) k => <[k := EmptyString]> caps) CAPS_HELP
        (filter (fun x => CAPS_HELP !! x = None) (keys CAPABILITIES)) = CAPS_HELP.
Proof.
  rewrite filter_none; [done|].
  apply Forall_forall. intros x Hx Hnone.
  apply elem_of_keys, caps_help_complete in Hx. rewrite Hnone in Hx.
  by destruct Hx.
Qed.

(** [cobalt-capabilities --all] prints every capability with its help text
    and sends nothing. Without [--all], once the capabilities are cached,
    it prints the supported ones only, each with its help text, and sends
    nothing either. *)
Theorem cobalt_capabilities_output args w :
  (Args.all args = true ->
   do_cobalt_capabilities args w =
   (inr tt, printed w (capability_line <$> map_to_list CAPS_HELP)))
  /\
  (forall supported,
     Args.all args = false -> capabilities w = Some supported ->
     exists shown : gmap string string,
       (forall k, shown !! k =
                  if decide (k ∈ supported) then CAPS_HELP !! k else None) /\
       do_cobalt_capabilities args w =
       (inr tt, printed w (capability_line <$> map_to_list shown))).
Proof.
  split.
  - intros Hall. unfold do_cobalt_capabilities. rewrite caps_help_padding, Hall.
    cbn [negb]. unfold bind, ret. apply (mfor_print capability_line).
  - intros supported Hall Hc. eexists. split; last first.
    + unfold do_cobalt_capabilities. rewrite caps_help_padding, Hall. cbn [negb].
      unfold bind, ensure_capabilities, read_capabilities, get_capabilities,
        bind, ret. cbv beta iota. rewrite Hc. cbv beta iota. rewrite Hc.
      apply (mfor_print capability_line).
    + intros k. rewrite lookup_foldl_delete.
      rewrite (decide_ext _ (k ∈ keys CAPABILITIES /\ k ∉ supported)); last first.
      { rewrite elem_of_elements, elem_of_difference, !elem_of_list_to_set. done. }
      destruct (decide (k ∈ supported)) as [Hin|Hout].
      * rewrite decide_False; [done|]. by intros [_ ?].
      * case_decide as Hk; [done|].
        destruct (CAPS_HELP !! k) eqn:Hhelp; [|done]. exfalso. apply Hk.
        split; [|done]. apply elem_of_keys, caps_help_complete. by eexists.
Qed.

(** A server that cannot be found is never acted upon: when the search a
    handler starts with fails, the handler raises that failure there and
    then, and the GET requests of the search are all it has sent. *)
Theorem lookup_failure_stops_handler c args w name_or_id e w1 :
  looked_up c args = Some name_or_id ->
  _find_server name_or_id w = (inl e, w1) ->
  handler c args w = (inl e, w1) /\
  exists gets, w1 = sent w gets /\ only_gets gets.
Proof.
  intros Hlook Hfind. split; [by eapply handler_lookup_fails|].
  destruct (find_server_sent name_or_id w) as (gets & Hw & Hg).
  rewrite Hfind in Hw. by exists gets.
Qed.

(** [live-image-import] and [install-policy] read their file first: when it
    is missing they raise [IOError] and send nothing. *)
Theorem missing_file_stops_handler args w :
  (files w !! Args.data_filename args = None ->
   do_live_image_import args w = (inl (IOError (Args.data_filename args)), w))
  /\
  (files w !! Args.policy_filename args = None ->
   do_install_policy args w = (inl (IOError (Args.policy_filename args)), w)).
Proof.
  split; intros Hfile;
    unfold do_live_image_import, do_install_policy, bind, read_file;
    by rewrite Hfile.
Qed.

(** [install-policy] posts the text of the policy file and the [--wait]
    flag to [/gcpolicy]; that is its only request. *)
Theorem install_policy_request args w policy :
  files w !! Args.policy_filename args = Some policy ->
  let body : gmap string pyval :=
    <["policy_ini_string" := PStr policy]> (<["wait" := PBool (Args.wait args)]> ∅) in
  do_install_policy args w =
  (match api (http_log w) (HttpPost "/gcpolicy" (PDict body)) with
   | inl e => inl e
   | inr _ => inr tt
   end,
   sent w [HttpPost "/gcpolicy" (PDict body)]).
Proof.
  intros Hfile. unfold do_install_policy, bind, read_file. rewrite Hfile.
  unfold install_policy. rewrite http_log_step.
  by destruct (api _ _).
Qed.

(** [live-image-export] acts on the server its search found, by that
    server's [id] attribute, and writes the exported data to the output
    file before it reads the image id out of them: if the server's answer
    has no ['export_image_id'] the file is written all the same and the
    handler then raises. When the export action fails, or the output file
    cannot be opened, no file is written and nothing is printed. *)
Theorem export_writes_before_reporting args w server w1 i :
  _find_server (Args.server args) w = (inr server, w1) ->
  _info server !! "id" = Some i ->
  let action := ServerAction "gc_export" (py_str i) None in
  (forall e,
     api (http_log w1) action = inl e ->
     do_live_image_export args w = (inl e, sent w1 [action]))
  /\
  (forall result,
     api (http_log w1) action = inr result ->
     writable (Args.output args) = false ->
     do_live_image_export args w =
     (inl (IOError (Args.output args)), sent w1 [action]))
  /\
  (forall result,
     api (http_log w1) action = inr result ->
     writable (Args.output args) = true ->
     let written :=
       mkWorld (http_log w1 ++ [action]) (capabilities w1)
         (<[Args.output args := json_dumps result +:+ String "010" EmptyString]>
            (files w1))
         (stdout w1) in
     do_live_image_export args w =
     match py_getitem result "export_image_id" with
     | inl e => (inl e, written)
     | inr image_id =>
         (inr tt,
          printed written
            [OutLine ("Instance data is being exported to image " +:+
                      py_str image_id)])
     end).
Proof.
  intros Hfind Hid. unfold do_live_image_export.
  rewrite (bind_returns _ _ _ _ _ Hfind). unfold export, attr_id, resource_attr.
  rewrite Hid. cbv zeta.
  split; [|split]; intros r Hact;
    unfold bind at 1, bind at 1, lift at 1, _action;
    rewrite http_log_step, Hact;
    fold (sent w1 [ServerAction "gc_export" (py_str i) None]).
  - reflexivity.
  - intros Hw. unfold bind at 1, write_file. by rewrite Hw.
  - intros Hw. unfold bind at 1, write_file. rewrite Hw.
    unfold bind, lift, print, printed, sent.
    cbn [http_log capabilities files stdout].
    destruct (py_getitem r "export_image_id"); reflexivity.
Qed.

(** ** Requests of [CoServerManager.start_live_image] *)





(** The parameters of [gc_launch] always have the six keys [guest],
    [security_groups], [availability_zone], [scheduler_hints],
    [num_instances] and [key_name]; [name] is there whenever a name is
    given, be it empty, [user_data] when the user data are true in Python's
    sense, [networks] when the list of NICs is given and not empty; and
    there is no other key. *)
Theorem launch_params_keys name user_data guest_params security_groups
    availability_zone num_instances key_name scheduler_hints networks k :
  is_Some (launch_params name user_data guest_params security_groups
             availability_zone num_instances key_name scheduler_hints
             networks !! k) <->
  k ∈ ["guest"; "security_groups"; "availability_zone"; "scheduler_hints";
       "num_instances"; "key_name"] \/
  (k = "name" /\ name <> None) \/
  (k = "user_data" /\ user_data_truthy user_data = true) \/
  (k = "networks" /\ networks <> None /\ networks <> Some []).
Proof.
  clear. unfold launch_params. rewrite !elem_of_cons, elem_of_nil.
  destruct networks as [[|nic nets]|], name as [n|],
    (user_data_truthy user_data); cbv zeta; simpl;
    rewrite ?lookup_insert_is_Some', lookup_empty;
    pose proof (@is_Some_None pyval);
    intuition congruence.
Qed.


(** ** Requests of [do_live_image_start] *)

(** A run of [do_live_image_start] that returns: what it found, what it
    parsed, and the requests it sent. *)
Lemma do_live_image_start_success args w w' :
  do_live_image_start args w = (inr tt, w') ->
  exists server gets0 user_data nics n gets,
    _find_server (positional (Args.live_image args)) w =
      (inr server, sent w gets0) /\
    only_gets gets0 /\
    read_user_data (files w) (Args.user_data args) = inr user_data /\
    parse_nics_arg (Args.nics args) = inr nics /\
    py_int (Args.num_instances args) = inr n /\
    only_gets gets /\
    http_log w' =
    http_log w ++ gets0 ++
      ServerAction "gc_launch" (server_id server)
        (Some (PDict (launch_params (Args.name args) user_data
           (guest_params_of (Args.params args))
           (match Args.security_groups args with
            | Some s => if PyStr.truthy s then Some (PyStr.split "," s) else None
            | None => None
            end)
           (match Args.availability_zone args with
            | Some s => if PyStr.truthy s then Some s else None
            | None => None
            end)
           n (Args.key_name args)
           (scheduler_hints_of (Args._scheduler_hints args))
           (Some nics)))) :: gets.
Proof.
  intros Hrun. unfold do_live_image_start in Hrun.
  destruct (negb _); [done|].
  unfold bind at 1 in Hrun.
  destruct (find_server_sent (positional (Args.live_image args)) w)
    as (gets0 & Hw & Hg0).
  destruct (_find_server _ w) as [[e|server] w1] eqn:Hfind; [done|].
  cbn [snd] in Hw. subst w1.
  unfold bind at 1 in Hrun.
  rewrite user_data_step in Hrun. cbn [sent files] in Hrun.
  destruct (read_user_data (files w) (Args.user_data args))
    as [e|user_data] eqn:Hud; [done|].
  unfold bind at 1, lift at 1 in Hrun.
  destruct (parse_nics_arg (Args.nics args)) as [e|nics] eqn:Hnics; [done|].
  unfold bind at 1, lift at 1 in Hrun.
  destruct (py_int (Args.num_instances args)) as [e|n] eqn:Hint; [done|].
  unfold bind at 1 in Hrun.
  match type of Hrun with context [start_live_image ?s ?a ?b ?c ?d ?e ?f ?g ?h ?i ?w1] =>
    destruct (start_live_image_requests s a b c d e f g h i w1) as (gets1 & Hlog1 & Hg1);
    destruct (start_live_image s a b c d e f g h i w1) as [[e0|launched] w2]
  end; [done|].
  cbn [snd sent http_log] in Hlog1.
  match type of Hrun with mfor ?l ?body ?w2 = _ =>
    destruct (quiet_mfor body l (fun x => quiet_print_server x false) w2)
      as (gets2 & Hlog2 & Hg2)
  end.
  rewrite Hrun in Hlog2. cbn [snd] in Hlog2.
  exists server, gets0, user_data, nics, n, (gets1 ++ gets2).
  split; [done|]. split; [done|]. split; [done|]. split; [done|].
  split; [done|]. split; [by apply only_gets_app|].
  rewrite Hlog2, Hlog1. rewrite <- !app_assoc. done.
Qed.

Lemma parsed_nic_is_sent nic_str d :
  parse_nic nic_str = inr d ->
  is_Some (net_data_of d !! "uuid") \/ is_Some (net_data_of d !! "port").
Proof.
  intros Hd. apply parse_nic_inv in Hd as (_ & net_id & port_id & Hn & Hp & Hset).
  rewrite !net_data_of_lookup. simpl. unfold nonempty_field. rewrite Hn, Hp.
  destruct Hset as [Hne|Hne]; [left|right]; by rewrite decide_False.
Qed.

Lemma parsed_nics_are_sent arg_nics nics :
  Forall2 (fun nic_str d => parse_nic nic_str = inr d) arg_nics nics ->
  Forall (fun net_data : gmap string pyval =>
            is_Some (net_data !! "uuid") \/ is_Some (net_data !! "port"))
         (net_data_of <$> nics).
Proof.
  induction 1 as [|nic_str d arg_nics nics Hd _ IH]; [constructor|].
  rewrite fmap_cons. constructor; [by eapply parsed_nic_is_sent|done].
Qed.

(** The NICs of a [live-image-start] that returns: without [--nic] the
    request has no ['networks'] key; otherwise it lists one dictionary per
    [--nic] option, each with a ['uuid'] or a ['port']. *)
Theorem live_image_start_nics args w w' :
  do_live_image_start args w = (inr tt, w') ->
  exists gets1 ident params gets2,
    http_log w' =
    http_log w ++ gets1 ++
      ServerAction "gc_launch" ident (Some (PDict params)) :: gets2 /\
    only_gets gets1 /\ only_gets gets2 /\
    match Args.nics args with
    | [] => params !! "networks" = None
    | _ =>
        exists sent_nics : list (gmap string pyval),
          params !! "networks" = Some (PList (PDict <$> sent_nics)) /\
          length sent_nics = length (Args.nics args) /\
          Forall (fun net_data : gmap string pyval =>
                    is_Some (net_data !! "uuid") \/ is_Some (net_data !! "port"))
                 sent_nics
    end.
Proof.
  intros Hrun.
  destruct (do_live_image_start_success args w w' Hrun)
    as (server & gets0 & user_data & nics & n & gets & _ & Hg0 & _ & Hnics & _ &
        Hg & Hlog).
  eexists gets0, _, _, gets. split; [exact Hlog|].
  split; [done|]. split; [done|].
  rewrite launch_params_networks.
  unfold parse_nics_arg in Hnics. apply rmap_inr in Hnics.
  destruct Hnics as [|nic_str d arg_nics nics Hd Hrest]; [done|].
  exists (net_data_of <$> d :: nics). split; [|split].
  - by rewrite <- list_fmap_compose.
  - rewrite length_fmap. simpl. f_equal. symmetry. by eapply Forall2_length.
  - apply (parsed_nics_are_sent (nic_str :: arg_nics)). by constructor.
Qed.

(** The deprecated [launch] command drops whatever NICs its arguments
    hold: its request never has a ['networks'] key. *)
Theorem launch_sends_no_networks args w w' :
  do_launch args w = (inr tt, w') ->
  exists gets1 ident params gets2,
    http_log w' =
    http_log w ++ gets1 ++
      ServerAction "gc_launch" ident (Some (PDict params)) :: gets2 /\
    only_gets gets1 /\ only_gets gets2 /\
    params !! "networks" = None.
Proof.
  unfold do_launch. intros Hrun.
  destruct (do_live_image_start_success _ w w' Hrun)
    as (server & gets0 & user_data & nics & n & gets & _ & Hg0 & _ & Hnics & _ &
        Hg & Hlog).
  simpl in Hnics. injection Hnics as <-.
  eexists gets0, _, _, gets. split; [exact Hlog|].
  split; [done|]. split; [done|].
  by rewrite launch_params_networks.
Qed.

(** The user data of a [live-image-start] that returns: when [--user-data]
    names a file, the request carries the base64 encoding of the file's
    contents, even if the file is empty; without the option, or with an
    empty file name, it has no ['user_data'] key. *)
Theorem live_image_start_user_data args w w' :
  do_live_image_start args w = (inr tt, w') ->
  exists gets1 ident params gets2,
    http_log w' =
    http_log w ++ gets1 ++
      ServerAction "gc_launch" ident (Some (PDict params)) :: gets2 /\
    only_gets gets1 /\ only_gets gets2 /\
    match Args.user_data args with
    | None | Some EmptyString => params !! "user_data" = None
    | Some path =>
        exists contents,
          files w !! path = Some contents /\
          params !! "user_data" = Some (PStr (Codec.b64encode contents))
    end.
Proof.
  intros Hrun.
  destruct (do_live_image_start_success args w w' Hrun)
    as (server & gets0 & user_data & nics & n & gets & _ & Hg0 & Hud & _ & _ &
        Hg & Hlog).
  eexists gets0, _, _, gets. split; [exact Hlog|].
  split; [done|]. split; [done|].
  rewrite launch_params_user_data. unfold read_user_data in Hud.
  destruct (Args.user_data args) as [[|c path]|]; cbn [PyStr.truthy] in Hud.
  - by injection Hud as <-.
  - destruct (files w !! String c path) as [contents|]; [|done].
    injection Hud as <-. by exists contents.
  - by injection Hud as <-.
Qed.

(** Validation comes before the action: with a [--live-image] given, a
    missing user-data file, a [--nic] value that does not parse or a
    [--num-instances] that is no integer makes the handler raise having
    sent only the GET requests of its search for the live-image. *)
Theorem live_image_start_validates_first args w :
  opt_truthy (Args.live_image args) = true ->
  (exists path, Args.user_data args = Some path /\ PyStr.truthy path = true /\
                files w !! path = None) \/
  (exists e, parse_nics_arg (Args.nics args) = inl e) \/
  (exists e, py_int (Args.num_instances args) = inl e) ->
  exists e gets,
    do_live_image_start args w = (inl e, sent w gets) /\ only_gets gets.
Proof.
  intros Hli Hbad. apply do_live_image_start_invalid; [done|].
  destruct Hbad as [(path & Hpath & Htruthy & Hnone)|[Hnic|Hint]];
    [left|by right; left|by right; right].
  unfold read_user_data. rewrite Hpath, Htruthy, Hnone. by eexists.
Qed.

(** ** What [_print_server] shows *)

Lemma bind_inv {A B} (c : M A) (k : A -> M B) w b w' :
  bind c k w = (inr b, w') ->
  exists a w1, c w = (inr a, w1) /\ k a w1 = (inr b, w').
Proof.
  unfold bind. destruct (c w) as [[e|a] w1]; [done|]. intros H. by exists a, w1.
Qed.

Lemma keeps_stdout_bind {A B} (c : M A) (k : A -> M B) :
  keeps_stdout c -> (forall a, keeps_stdout (k a)) -> keeps_stdout (bind c k).
Proof.
  intros Hc Hk w. unfold bind. specialize (Hc w).
  destruct (c w) as [[e|a] w1]; [done|]. cbn [snd] in *. by rewrite Hk.
Qed.

Lemma keeps_stdout_http r : keeps_stdout (http r).
Proof. done. Qed.

Lemma keeps_stdout_lift {A} (r : result A) : keeps_stdout (lift r).
Proof. done. Qed.

Lemma keeps_stdout_ret {A} (a : A) : keeps_stdout (ret a).
Proof. done. Qed.

Lemma keeps_stdout_run_search {A} (l : search A) : keeps_stdout (run_search l).
Proof.
  intros w. destruct (run_search_sent l w) as (gets & Hw & _). by rewrite Hw.
Qed.

Lemma keeps_stdout_try_except {A} (c h : M A) :
  keeps_stdout c -> keeps_stdout h -> keeps_stdout (try_except c h).
Proof.
  intros Hc Hh w. unfold try_except. specialize (Hc w).
  destruct (c w) as [[e|a] w1]; [|done]. cbn [snd] in *. by rewrite Hh.
Qed.

Lemma keeps_stdout_run {A} (c : M A) w r w' :
  keeps_stdout c -> c w = (r, w') -> stdout w' = stdout w.
Proof. intros Hc Hrun. specialize (Hc w). by rewrite Hrun in Hc. Qed.

(** Walk through a computation that prints nothing. *)
Ltac keeps_stdout_walk :=
  repeat first
    [ apply keeps_stdout_bind; [|intros ?]
    | apply keeps_stdout_try_except
    | apply keeps_stdout_run_search
    | apply keeps_stdout_http
    | apply keeps_stdout_lift
    | apply keeps_stdout_ret
    | match goal with
      | |- keeps_stdout (match ?x with _ => _ end) => destruct x
      end ].

(** When [_print_server] returns it has printed one table, which has a
    ['flavor'] and an ['image'] entry and neither ['links'] nor
    ['addresses']. *)
Theorem print_server_table server minimal w w' :
  _print_server server minimal w = (inr tt, w') ->
  exists info : gmap string pyval,
    stdout w' = stdout w ++ [OutDict info] /\
    is_Some (info !! "flavor") /\ is_Some (info !! "image") /\
    info !! "links" = None /\ info !! "addresses" = None.
Proof.
  unfold _print_server. intros Hrun.
  apply bind_inv in Hrun as (server1 & w1 & H1 & Hrun).
  apply bind_inv in Hrun as (flavor_id & w2 & H2 & Hrun).
  apply bind_inv in Hrun as (flavor_text & w3 & H3 & Hrun).
  apply bind_inv in Hrun as (image_text & w4 & H4 & Hrun).
  unfold print in Hrun. injection Hrun as <-. cbn [stdout].
  eexists. split; [f_equal|].
  - apply keeps_stdout_run in H4; [|keeps_stdout_walk].
    apply keeps_stdout_run in H3; [|keeps_stdout_walk].
    apply keeps_stdout_run in H2; [|keeps_stdout_walk].
    apply keeps_stdout_run in H1; [|keeps_stdout_walk].
    congruence.
  - split; [|split; [|split]].
    + rewrite !lookup_delete_ne by done.
      rewrite lookup_insert_ne by done. by rewrite lookup_insert_eq.
    + rewrite !lookup_delete_ne by done. by rewrite lookup_insert_eq.
    + rewrite lookup_delete_ne by done. by rewrite lookup_delete_eq.
    + by rewrite lookup_delete_eq.
Qed.

(** ** Requests of the simple action handlers *)

(** [live-image-delete] and [cobalt-migrate] act on the server their search
    found: after the search they send one request, the action on that
    server -- [gc_migrate] with a ['dest'] only when [--dest] was given --
    and raise what the action raises. *)
Theorem delete_and_migrate_requests args w :
  (forall server w1,
     _find_server (positional (Args.live_image args)) w = (inr server, w1) ->
     let action := ServerAction "gc_discard" (server_id server) None in
     do_live_image_delete args w =
     (match api (http_log w1) action with
      | inl e => inl e
      | inr _ => inr tt
      end, sent w1 [action]))
  /\
  (forall server w1,
     _find_server (Args.server args) w = (inr server, w1) ->
     let params : gmap string pyval :=
       match Args.dest args with
       | Some d => <["dest" := PStr d]> ∅
       | None => ∅
       end in
     let action := ServerAction "gc_migrate" (server_id server) (Some (PDict params)) in
     do_cobalt_migrate args w =
     (match api (http_log w1) action with
      | inl e => inl e
      | inr _ => inr tt
      end, sent w1 [action])).
Proof.
  split; intros server w1 Hfind; cbv zeta.
  - unfold do_live_image_delete. rewrite (bind_returns _ _ _ _ _ Hfind).
    unfold bind, delete_live_image, _action. rewrite http_log_step.
    fold (sent w1 [ServerAction "gc_discard" (server_id server) None]).
    destruct (api (http_log w1) _); reflexivity.
  - unfold do_cobalt_migrate. rewrite (bind_returns _ _ _ _ _ Hfind).
    unfold bind, migrate, _action. rewrite http_log_step.
    match goal with |- context [mkWorld (http_log w1 ++ [?a]) _ _ _] =>
      fold (sent w1 [a])
    end.
    destruct (api (http_log w1) _); reflexivity.
Qed.

(** [get-policy] asks for the policy of the server its search found and
    prints the lines of the answer, in order, one by one. *)
Theorem get_policy_prints args w server w1 policy_lines :
  _find_server (Args.server args) w = (inr server, w1) ->
  api (http_log w1) (ServerAction "co_get_policy" (server_id server) None) =
  inr (PList policy_lines) ->
  do_get_policy args w =
  (inr tt,
   printed (sent w1 [ServerAction "co_get_policy" (server_id server) None])
           ((fun line => OutLine (py_str line)) <$> policy_lines)).
Proof.
  intros Hfind Hact.
  unfold do_get_policy. rewrite (bind_returns _ _ _ _ _ Hfind).
  unfold bind at 1, get_policy, _action. rewrite http_log_step, Hact.
  unfold bind, lift, py_iter.
  rewrite (mfor_print (fun line => OutLine (py_str line))).
  reflexivity.
Qed.
End Client.

(** * Concrete runs

    The statements above that carry a hypothesis, applied to the sample
    service of [Demo], and the runs that show where the code departs from
    what a reader could expect. *)

Example demo_start_log :
  http_log (do_live_image_start Demo.api Demo.py_int Demo.py_str Demo.py_repr
      Demo.server_networks Demo.find_resource Demo.shell_find_server
      Demo.shell_find_flavor Demo.shell_find_image Demo.start_args Demo.world0).2 =
  [HttpGet "/servers?name=li-1"; HttpGet "/servers/li-1";
   ServerAction "gc_launch" "li-1"
     (Some (PDict (launch_params (Some "vm") (UDFile "#!/bin/sh")
                     (<["role" := "web"]> ∅) None None 1 None ∅
                     (Some [<["net-id" := "n1"]> nic_info_init]))));
   HttpGet "/servers/new-1"; HttpGet "/flavors/1";
   HttpGet "/images?name=img"; HttpGet "/images/img"].
Proof. vm_compute. reflexivity. Qed.

Example demo_py_int :
  Demo.py_int "12" = inr 12%Z /\ Demo.py_int " -3 " = inr (-3)%Z /\
  Demo.py_int "+7" = inr 7%Z /\ Demo.py_int "1 2" = inl ValueError /\
  Demo.py_int "-" = inl ValueError /\ Demo.py_int EmptyString = inl ValueError.
Proof. vm_compute. repeat split. Qed.

Lemma parse_nics_arg_validation_witness :
  parse_nics_arg ["net-id=UUID,v4-fixed-ip=1.2.3.4"] =
  inr [<["net-id" := "UUID"]>
         (<["v4-fixed-ip" := "1.2.3.4"]> (<["port-id" := EmptyString]> ∅))]
  /\
  exists bad,
    bad ∈ ["port-id=p"; "v4-fixed-ip=1.2.3.4"] /\
    parse_nics_arg ["port-id=p"; "v4-fixed-ip=1.2.3.4"] =
    inl (CommandError (nic_err_msg bad)).
Proof.
  split.
  - apply (proj1 parse_nics_arg_validation [("UUID", "1.2.3.4")]).
    repeat constructor; simpl; discriminate.
  - apply (proj2 parse_nics_arg_validation
             ["port-id=p"; "v4-fixed-ip=1.2.3.4"] ["v4-fixed-ip=1.2.3.4"]).
    + discriminate.
    + repeat constructor.
    + apply elem_of_cons. right. apply elem_of_cons. left. reflexivity.
    + right. right. intros v [H|H];
        apply elem_of_cons in H as [H|H];
        try discriminate H; by apply elem_of_nil in H.
Defined.

Lemma guest_params_first_equals_witness :
  guest_params_of (["role=web"] ++ ["mode=a=b"]) =
  <["mode" := "a=b"]> (guest_params_of ["role=web"])
  /\
  guest_params_of (["role=web"] ++ ["debug"]) =
  <["debug" := EmptyString]> (guest_params_of ["role=web"]).
Proof.
  split.
  - apply (proj1 guest_params_first_equals ["role=web"] "mode" "a=b").
    reflexivity.
  - apply (proj2 guest_params_first_equals ["role=web"] "debug").
    reflexivity.
Defined.

Lemma live_image_required_witness :
  do_live_image_start Demo.api Demo.py_int Demo.py_str Demo.py_repr
      Demo.server_networks Demo.find_resource Demo.shell_find_server
      Demo.shell_find_flavor Demo.shell_find_image
    Args.defaults Demo.world0 =
  (inl (CommandError "you need to provide a live-image ID"), Demo.world0).
Proof.
  apply (live_image_required Demo.api Demo.py_int Demo.py_str Demo.py_repr
      Demo.server_networks Demo.find_resource Demo.shell_find_server
      Demo.shell_find_flavor Demo.shell_find_image Args.defaults Demo.world0).
  left. reflexivity.
Defined.

(** C3 as stated fails: started without [--live-image], the handler sends
    no action at all, not one; and [cobalt-capabilities] returns without
    having sent any. *)
Lemma live_image_start_without_action :
  (let w' := (do_live_image_start Demo.api Demo.py_int Demo.py_str Demo.py_repr
      Demo.server_networks Demo.find_resource Demo.shell_find_server
      Demo.shell_find_flavor Demo.shell_find_image Args.defaults Demo.world0).2 in
   count_requests is_action w' = 0 /\
   count_requests is_action w' <> count_requests is_action Demo.world0 + 1)
  /\
  (let run := do_cobalt_capabilities Demo.api Args.defaults Demo.world0 in
   run.1 = inr tt /\ http_log run.2 = [HttpGet "/gcinfo"] /\
   count_requests is_action run.2 = 0).
Proof.
  split; [split; vm_compute; [reflexivity|discriminate]|].
  vm_compute. repeat split.
Qed.

Lemma handlers_single_call_witness :
  (exists gets1 call gets2,
     http_log (handler Demo.api Demo.json_load Demo.json_dumps Demo.py_int Demo.py_str
      Demo.py_repr Demo.writable Demo.server_networks Demo.find_resource
      Demo.shell_find_server Demo.shell_find_flavor Demo.shell_find_image
      Demo.agent_install live_image_start Demo.start_args
                 Demo.world0).2 =
     http_log Demo.world0 ++ gets1 ++ call :: gets2 /\
     only_gets gets1 /\ only_gets gets2 /\
     makes live_image_start call = true /\
     calls (gets1 ++ call :: gets2) = 1)
  /\
  (exists rest,
     http_log (handler Demo.api Demo.json_load Demo.json_dumps Demo.py_int Demo.py_str
      Demo.py_repr Demo.writable Demo.server_networks Demo.find_resource
      Demo.shell_find_server Demo.shell_find_flavor Demo.shell_find_image
      Demo.agent_install live_image_import Demo.start_args
                 Demo.world0).2 =
     http_log Demo.world0 ++ rest /\ calls rest <= 1)
  /\
  (exists e,
     do_live_image_start Demo.api Demo.py_int Demo.py_str Demo.py_repr
      Demo.server_networks Demo.find_resource Demo.shell_find_server
      Demo.shell_find_flavor Demo.shell_find_image Args.defaults Demo.world0 = (inl e, Demo.world0))
  /\
  (exists e gets,
     do_live_image_start Demo.api Demo.py_int Demo.py_str Demo.py_repr
      Demo.server_networks Demo.find_resource Demo.shell_find_server
      Demo.shell_find_flavor Demo.shell_find_image Samples.bad_nic_args Demo.world0 =
     (inl e, sent Demo.world0 gets) /\ only_gets gets)
  /\
  (handler Demo.api_down Demo.json_load Demo.json_dumps Demo.py_int Demo.py_str
      Demo.py_repr Demo.writable Demo.server_networks Demo.find_resource
      Demo.shell_find_server Demo.shell_find_flavor Demo.shell_find_image
      Demo.agent_install cobalt_migrate Samples.server_args Demo.world0 =
   (inl (ClientException 500), sent Demo.world0 [HttpGet "/servers?name=vm-1"]) /\
   exists gets,
     sent Demo.world0 [HttpGet "/servers?name=vm-1"] = sent Demo.world0 gets /\
     only_gets gets)
  /\
  ((exists gets,
      sent Demo.world0 [HttpGet "/servers?name=vm-1"; HttpGet "/servers/vm-1"] =
      sent Demo.world0 gets /\ only_gets gets) /\
   handler Demo.api Demo.json_load Demo.json_dumps Demo.py_int Demo.py_str
      Demo.py_repr Demo.writable Demo.server_networks Demo.find_resource
      Demo.shell_find_server Demo.shell_find_flavor Demo.shell_find_image
      Demo.agent_install cobalt_install_agent Samples.server_args Demo.world0 =
   Demo.agent_install (Samples.server "vm-1") "root" None None None None
     (sent Demo.world0 [HttpGet "/servers?name=vm-1"; HttpGet "/servers/vm-1"]))
  /\
  (exists gets1 ident params gets2,
     http_log (do_live_image_start Demo.api Demo.py_int Demo.py_str Demo.py_repr
      Demo.server_networks Demo.find_resource Demo.shell_find_server
      Demo.shell_find_flavor Demo.shell_find_image Demo.start_args Demo.world0).2 =
     http_log Demo.world0 ++ gets1 ++
       ServerAction "gc_launch" ident (Some (PDict params)) :: gets2 /\
     only_gets gets1 /\ only_gets gets2).
Proof.
  destruct (handlers_single_call Demo.api Demo.json_load Demo.json_dumps Demo.py_int Demo.py_str
      Demo.py_repr Demo.writable Demo.server_networks Demo.find_resource
      Demo.shell_find_server Demo.shell_find_flavor Demo.shell_find_image
      Demo.agent_install)
    as (Hone & Hmost & _ & Hnone & Hinvalid & _ & Hagent & Hstart & _).
  destruct (handlers_single_call Demo.api_down Demo.json_load Demo.json_dumps Demo.py_int Demo.py_str
      Demo.py_repr Demo.writable Demo.server_networks Demo.find_resource
      Demo.shell_find_server Demo.shell_find_flavor Demo.shell_find_image
      Demo.agent_install)
    as (_ & _ & _ & _ & _ & Hlookup & _).
  split; [|split; [|split; [|split; [|split; [|split]]]]].
  - apply (Hone live_image_start Demo.start_args Demo.world0).
    + discriminate.
    + vm_compute. reflexivity.
  - apply (Hmost live_image_import Demo.start_args Demo.world0); discriminate.
  - apply (Hnone Args.defaults Demo.world0). reflexivity.
  - apply (Hinvalid Samples.bad_nic_args Demo.world0).
    + reflexivity.
    + right. left. exists (CommandError (nic_err_msg "bogus")).
      vm_compute. reflexivity.
  - apply (Hlookup cobalt_migrate Samples.server_args Demo.world0 "vm-1").
    + reflexivity.
    + vm_compute. reflexivity.
  - apply (Hagent cobalt_install_agent Samples.server_args Demo.world0).
    + left. reflexivity.
    + vm_compute. reflexivity.
  - apply (Hstart Demo.start_args Demo.world0). vm_compute. reflexivity.
Defined.

Lemma setup_capabilities_spec_witness :
  exists caps,
    setup_capabilities Demo.api Demo.world0 =
    (inr tt, mkWorld [HttpGet "/gcinfo"] (Some caps) (files Demo.world0) []) /\
    forall cap,
      cap ∈ caps <->
      exists deps,
        CAPABILITIES !! cap = Some deps /\
        forall api_req,
          api_req ∈ deps -> PStr api_req ∈ [PStr "user-data"; PStr "launch-nics"].
Proof.
  apply (setup_capabilities_spec Demo.api Demo.world0
           (<["capabilities" := PList [PStr "user-data"; PStr "launch-nics"]]> ∅)
           [PStr "user-data"; PStr "launch-nics"]).
  - reflexivity.
  - reflexivity.
Defined.

Example demo_capabilities :
  capabilities (setup_capabilities Demo.api Demo.world0).2 =
  Some ["user-data"; "launch-nics"].
Proof. vm_compute. reflexivity. Qed.

(** When the round trip fails nothing is cached, and the next call of
    [satisfies] asks again. *)
Example demo_capabilities_not_cached_on_failure :
  let run := satisfies Demo.api_down ["user-data"] Demo.world0 in
  run.1 = inl (ClientException 500) /\
  capabilities run.2 = None /\
  http_log (satisfies Demo.api_down ["user-data"] run.2).2 =
  [HttpGet "/gcinfo"; HttpGet "/gcinfo"].
Proof. vm_compute. repeat split. Qed.

Lemma capabilities_cached_witness :
  let w' := (setup_capabilities Demo.api Demo.world0).2 in
  http_log w' = http_log Demo.world0 ++ [HttpGet "/gcinfo"] /\
  (exists answer,
     satisfies Demo.api ["launch-nics"; "user-data"] w' = (inr answer, w') /\
     (answer = true <->
      forall r, r ∈ ["launch-nics"; "user-data"] ->
                r ∈ ["user-data"; "launch-nics"])) /\
  http_log (satisfies Demo.api ["bless-name"] Demo.world0).2 =
  http_log Demo.world0 ++ [HttpGet "/gcinfo"].
Proof.
  destruct (capabilities_cached Demo.api) as (Hsetup & Hcached & Hfirst).
  split; [|split].
  - apply (Hsetup Demo.world0). vm_compute. reflexivity.
  - apply Hcached. vm_compute. reflexivity.
  - apply Hfirst. reflexivity.
Defined.

(** C8 as stated fails: a key the document lacks is not set; the merge
    raises [KeyError] and the import request is never sent. *)
Lemma override_of_missing_key :
  apply_overrides (Some "a=1") (PDict ∅) = inl (KeyError "a") /\
  apply_overrides (Some "a=1") (PDict ∅) <> inr (PDict (<["a" := PStr "1"]> ∅)) /\
  do_live_image_import Demo.api Demo.json_load Demo.py_str Demo.py_repr
      Demo.server_networks Demo.shell_find_server Demo.shell_find_flavor
      Demo.shell_find_image
    Demo.start_args Demo.world0 = (inl (KeyError "a"), Demo.world0).
Proof.
  assert (apply_overrides (Some "a=1") (PDict ∅) = inl (KeyError "a")) as H
    by (vm_compute; reflexivity).
  split; [exact H|]. split; [rewrite H; discriminate|].
  vm_compute. reflexivity.
Qed.

Lemma override_merge_witness :
  apply_override "fields.display_name" "foo"
    (PDict (<["fields" := PDict (<["display_name" := PStr "vm"]> ∅)]> ∅)) =
  inr (PDict (<["fields" := PDict (<["display_name" := PStr "foo"]>
                                     (<["display_name" := PStr "vm"]> ∅))]>
             (<["fields" := PDict (<["display_name" := PStr "vm"]> ∅)]> ∅)))
  /\
  apply_override "security_groups" "sg1,sg2"
    (PDict (<["security_groups" := PList [PStr "default"]]> ∅)) =
  inr (PDict (<["security_groups" := PList [PStr "sg1"; PStr "sg2"]]>
                (<["security_groups" := PList [PStr "default"]]> ∅)))
  /\
  apply_override "a" "1" (PDict ∅) = inl (KeyError "a")
  /\
  apply_override ("fields" +:+ "." +:+ "display_name") "foo" (PDict ∅) =
  inl (KeyError "fields")
  /\
  apply_override "fields.display_name" "foo" (PStr "vm") = inl TypeError
  /\
  apply_override ("fields" +:+ "." +:+ "display_name") "foo"
    (PDict (<["fields" := PStr "vm"]> ∅)) = inl TypeError.
Proof.
  destruct (override_merge Demo.api Demo.json_load Demo.py_str Demo.py_repr
      Demo.server_networks Demo.shell_find_server Demo.shell_find_flavor
      Demo.shell_find_image)
    as (Hplain & _ & Hpath & Hmissing & Hparent & Hother & Hthrough & _).
  split; [|split; [|split; [|split; [|split]]]].
  - apply (Hpath (<["fields" := PDict (<["display_name" := PStr "vm"]> ∅)]> ∅)
             (<["display_name" := PStr "vm"]> ∅) "fields" "display_name" "foo"
             (PStr "vm")); reflexivity.
  - apply (Hplain (<["security_groups" := PList [PStr "default"]]> ∅)
             "security_groups" "sg1,sg2" (PList [PStr "default"])); reflexivity.
  - apply (Hmissing ∅ "a" "1"); reflexivity.
  - apply (Hparent ∅ "fields" "display_name" "foo"); reflexivity.
  - apply (Hother "fields.display_name" "foo" (PStr "vm")). discriminate.
  - apply (Hthrough (<["fields" := PStr "vm"]> ∅) "fields" "display_name" "foo"
             (PStr "vm")); [reflexivity|reflexivity|discriminate].
Defined.

(** * Concrete runs of the further properties *)

Lemma parse_nics_arg_result_shape_witness :
  let nics := [<["net-id" := "n1"]> nic_info_init;
               <["v4-fixed-ip" := "10.0.0.1"]> (<["port-id" := "p1"]> nic_info_init)] in
  length nics = length ["net-id=n1"; "port-id=p1,v4-fixed-ip=10.0.0.1"] /\
  Forall (fun d : gmap string string =>
            (forall k, is_Some (d !! k) <-> k ∈ nic_keys) /\
            exists net_id port_id,
              d !! "net-id" = Some net_id /\ d !! "port-id" = Some port_id /\
              (net_id <> EmptyString \/ port_id <> EmptyString)) nics.
Proof.
  apply (parse_nics_arg_result_shape
           ["net-id=n1"; "port-id=p1,v4-fixed-ip=10.0.0.1"]).
  vm_compute. reflexivity.
Defined.

Lemma parse_nics_arg_first_error_witness :
  parse_nics_arg (["net-id=n1"] ++ "bogus" :: ["also=bad"]) =
  inl (CommandError (nic_err_msg "bogus")).
Proof.
  apply (parse_nics_arg_first_error ["net-id=n1"] "bogus" ["also=bad"]
           [<["net-id" := "n1"]> nic_info_init]
           (CommandError (nic_err_msg "bogus"))).
  - vm_compute. reflexivity.
  - vm_compute. reflexivity.
Defined.

Lemma parse_nic_last_wins_witness :
  (<["net-id" := "b"]> nic_info_init : gmap string string) !! "net-id" =
  foldl (field_after "net-id") (Some EmptyString) ["net-id=a"; "net-id=b"].
Proof.
  apply (parse_nic_last_wins ["net-id=a"; "net-id=b"]
           (<["net-id" := "b"]> nic_info_init) "net-id").
  - discriminate.
  - repeat constructor.
  - vm_compute. reflexivity.
  - apply elem_of_cons. left. reflexivity.
Defined.

Lemma override_keeps_keys_witness :
  let d : gmap string pyval :=
    <["fields" := PDict (<["display_name" := PStr "vm"]> ∅)]>
    (<["export_image_id" := PStr "img-1"]> ∅) in
  exists d0 d' : gmap string pyval,
    PDict d = PDict d0 /\
    PDict (<["fields" := PDict (<["display_name" := PStr "foo"]> ∅)]>
          (<["export_image_id" := PStr "img-1"]> ∅)) = PDict d' /\
    dom d' = dom d0 /\
    forall k, k <> hint_key_dot "fields.display_name" -> d' !! k = d0 !! k.
Proof.
  apply (override_keeps_keys "fields.display_name" "foo").
  vm_compute. reflexivity.
Defined.

Lemma override_entry_needs_equals_witness :
  exists e,
    do_live_image_import Demo.api Demo.json_load Demo.py_str Demo.py_repr
      Demo.server_networks Demo.shell_find_server Demo.shell_find_flavor
      Demo.shell_find_image Samples.override_args Demo.world0 =
    (inl e, Demo.world0).
Proof.
  apply (override_entry_needs_equals Demo.api Demo.json_load Demo.py_str Demo.py_repr
      Demo.server_networks Demo.shell_find_server Demo.shell_find_flavor
      Demo.shell_find_image Samples.override_args Demo.world0
           "{}" (PDict ∅) "novalue" "novalue").
  - reflexivity.
  - reflexivity.
  - reflexivity.
  - apply elem_of_cons. left. reflexivity.
  - reflexivity.
Defined.

Lemma capabilities_from_table_witness :
  exists caps,
    capabilities (setup_capabilities Demo.api Demo.world0).2 = Some caps /\
    NoDup caps /\
    forall cap, cap ∈ caps -> is_Some (CAPABILITIES !! cap).
Proof.
  apply (capabilities_from_table Demo.api Demo.world0).
  vm_compute. reflexivity.
Defined.

Lemma setup_capabilities_failure_witness :
  (setup_capabilities Demo.api_down Demo.world0).2 =
  mkWorld (http_log Demo.world0 ++ [HttpGet "/gcinfo"]) (capabilities Demo.world0)
          (files Demo.world0) (stdout Demo.world0).
Proof.
  apply (setup_capabilities_failure Demo.api_down Demo.world0
           (ClientException 500)).
  vm_compute. reflexivity.
Defined.

Lemma satisfies_unknown_requirement_witness :
  let w' := (setup_capabilities Demo.api Demo.world0).2 in
  satisfies Demo.api ["user-data"; "teleport"] w' = (inr false, w').
Proof.
  apply (satisfies_unknown_requirement Demo.api Demo.world0 _
           ["user-data"; "teleport"] "teleport").
  - vm_compute. reflexivity.
  - apply elem_of_cons. right. apply elem_of_cons. left. reflexivity.
  - vm_compute. reflexivity.
Defined.

Lemma capabilities_monotone_witness :
  "user-data" ∈ ["user-data"; "launch-nics"].
Proof.
  apply (capabilities_monotone [PStr "user-data"]
           [PStr "user-data"; PStr "launch-nics"]
           ["user-data"] ["user-data"; "launch-nics"]).
  - intros v Hv. apply elem_of_cons. left.
    apply elem_of_cons in Hv as [Hv|Hv]; [exact Hv|].
    by apply elem_of_nil in Hv.
  - vm_compute. reflexivity.
  - vm_compute. reflexivity.
  - apply elem_of_cons. left. reflexivity.
Defined.

Lemma manager_init_registers_witness :
  let client : gmap string nat := <["servers" := 0]> (<["cobalt" := 7]> ∅) in
  manager_init 1 client !! "cobalt" = Some 7.
Proof.
  apply (proj1 (proj2 (proj2 (manager_init_registers 1 2
           (<["servers" := 0]> (<["cobalt" := 7]> ∅)))))).
  reflexivity.
Defined.

Lemma cobalt_capabilities_output_witness :
  do_cobalt_capabilities Demo.api Samples.all_args Demo.world0 =
  (inr tt, printed Demo.world0 (capability_line <$> map_to_list CAPS_HELP))
  /\
  exists shown : gmap string string,
    (forall k, shown !! k =
               if decide (k ∈ ["user-data"]) then CAPS_HELP !! k else None) /\
    do_cobalt_capabilities Demo.api Args.defaults Samples.cached_world =
    (inr tt, printed Samples.cached_world (capability_line <$> map_to_list shown)).
Proof.
  split.
  - apply (proj1 (cobalt_capabilities_output Demo.api Samples.all_args Demo.world0)).
    reflexivity.
  - apply (proj2 (cobalt_capabilities_output Demo.api Args.defaults
                    Samples.cached_world) ["user-data"]).
    + reflexivity.
    + reflexivity.
Defined.

Lemma lookup_failure_stops_handler_witness :
  handler Demo.api_down Demo.json_load Demo.json_dumps Demo.py_int Demo.py_str
      Demo.py_repr Demo.writable Demo.server_networks Demo.find_resource
      Demo.shell_find_server Demo.shell_find_flavor Demo.shell_find_image
      Demo.agent_install cobalt_migrate Samples.server_args Demo.world0 =
  (inl (ClientException 500),
   sent Demo.world0 [HttpGet "/servers?name=vm-1"])
  /\
  exists gets,
    sent Demo.world0 [HttpGet "/servers?name=vm-1"] =
    sent Demo.world0 gets /\ only_gets gets.
Proof.
  apply (lookup_failure_stops_handler Demo.api_down Demo.json_load Demo.json_dumps Demo.py_int Demo.py_str
      Demo.py_repr Demo.writable Demo.server_networks Demo.find_resource
      Demo.shell_find_server Demo.shell_find_flavor Demo.shell_find_image
      Demo.agent_install cobalt_migrate
           Samples.server_args Demo.world0 "vm-1" (ClientException 500)).
  - reflexivity.
  - vm_compute. reflexivity.
Defined.

Lemma missing_file_stops_handler_witness :
  do_live_image_import Demo.api Demo.json_load Demo.py_str Demo.py_repr
      Demo.server_networks Demo.shell_find_server Demo.shell_find_flavor
      Demo.shell_find_image
    Samples.server_args Demo.world0 = (inl (IOError "missing.json"), Demo.world0)
  /\
  do_install_policy Demo.api Args.defaults Demo.world0 =
  (inl (IOError EmptyString), Demo.world0).
Proof.
  split.
  - apply (proj1 (missing_file_stops_handler Demo.api Demo.json_load Demo.py_str Demo.py_repr
      Demo.server_networks Demo.shell_find_server Demo.shell_find_flavor
      Demo.shell_find_image
                    Samples.server_args Demo.world0)).
    reflexivity.
  - apply (proj2 (missing_file_stops_handler Demo.api Demo.json_load Demo.py_str Demo.py_repr
      Demo.server_networks Demo.shell_find_server Demo.shell_find_flavor
      Demo.shell_find_image
                    Args.defaults Demo.world0)).
    reflexivity.
Defined.

Lemma install_policy_request_witness :
  do_install_policy Demo.api Samples.server_args Demo.world0 =
  (inr tt,
   sent Demo.world0
     [HttpPost "/gcpolicy"
        (PDict (<["policy_ini_string" := PStr "#!/bin/sh"]>
               (<["wait" := PBool true]> ∅)))]).
Proof.
  exact (install_policy_request Demo.api Samples.server_args Demo.world0
           "#!/bin/sh" eq_refl).
Defined.

Lemma export_writes_before_reporting_witness :
  do_live_image_export Samples.api Demo.json_dumps Demo.py_str Demo.py_repr
      Demo.writable Demo.find_resource Samples.server_args Demo.world0 =
  (inr tt,
   printed
     (mkWorld [HttpGet "/servers?name=vm-1"; HttpGet "/servers/vm-1";
               ServerAction "gc_export" "vm-1" None]
        None
        (<["out.json" := "{}" +:+ String "010" EmptyString]> (files Demo.world0))
        [])
     [OutLine "Instance data is being exported to image img-9"]).
Proof.
  assert (_find_server Samples.api Demo.py_str Demo.py_repr Demo.find_resource "vm-1" Demo.world0 =
          (inr (Samples.server "vm-1"),
           sent Demo.world0 [HttpGet "/servers?name=vm-1"; HttpGet "/servers/vm-1"])) as Hfind
    by (vm_compute; reflexivity).
  exact (proj2 (proj2 (export_writes_before_reporting Samples.api
                         Demo.json_dumps Demo.py_str Demo.py_repr Demo.writable
                         Demo.find_resource Samples.server_args Demo.world0
                         _ _ (PStr "vm-1") Hfind eq_refl))
           (PDict (<["export_image_id" := PStr "img-9"]> ∅)) eq_refl eq_refl).
Defined.


Lemma delete_and_migrate_requests_witness :
  do_cobalt_migrate Demo.api Demo.py_str Demo.py_repr Demo.find_resource Samples.server_args Demo.world0 =
  (inr tt,
   sent (sent Demo.world0 [HttpGet "/servers?name=vm-1"; HttpGet "/servers/vm-1"])
     [ServerAction "gc_migrate" "vm-1"
        (Some (PDict (<["dest" := PStr "host-2"]> ∅)))]).
Proof.
  assert (_find_server Demo.api Demo.py_str Demo.py_repr Demo.find_resource "vm-1" Demo.world0 =
          (inr (Samples.server "vm-1"),
           sent Demo.world0 [HttpGet "/servers?name=vm-1"; HttpGet "/servers/vm-1"])) as Hfind
    by (vm_compute; reflexivity).
  exact (proj2 (delete_and_migrate_requests Demo.api Demo.py_str Demo.py_repr Demo.find_resource
                  Samples.server_args Demo.world0) _ _ Hfind).
Defined.

Lemma get_policy_prints_witness :
  do_get_policy Samples.api Demo.py_str Demo.py_repr Demo.find_resource Samples.server_args Demo.world0 =
  (inr tt,
   printed
     (sent (sent Demo.world0 [HttpGet "/servers?name=vm-1"; HttpGet "/servers/vm-1"])
        [ServerAction "co_get_policy" "vm-1" None])
     [OutLine "[policy]"; OutLine "memory = 512"]).
Proof.
  assert (_find_server Samples.api Demo.py_str Demo.py_repr Demo.find_resource "vm-1" Demo.world0 =
          (inr (Samples.server "vm-1"),
           sent Demo.world0 [HttpGet "/servers?name=vm-1"; HttpGet "/servers/vm-1"])) as Hfind
    by (vm_compute; reflexivity).
  exact (get_policy_prints Samples.api Demo.py_str Demo.py_repr Demo.find_resource Samples.server_args
           Demo.world0 _ _ [PStr "[policy]"; PStr "memory = 512"]
           Hfind eq_refl).
Defined.

Lemma live_image_start_nics_witness :
  let w' := (do_live_image_start Demo.api Demo.py_int Demo.py_str Demo.py_repr
      Demo.server_networks Demo.find_resource Demo.shell_find_server
      Demo.shell_find_flavor Demo.shell_find_image Demo.start_args Demo.world0).2 in
  exists gets1 ident params gets2,
    http_log w' =
    http_log Demo.world0 ++ gets1 ++
      ServerAction "gc_launch" ident (Some (PDict params)) :: gets2 /\
    only_gets gets1 /\ only_gets gets2 /\
    exists sent_nics : list (gmap string pyval),
      params !! "networks" = Some (PList (PDict <$> sent_nics)) /\
      length sent_nics = 1 /\
      Forall (fun net_data : gmap string pyval =>
                is_Some (net_data !! "uuid") \/ is_Some (net_data !! "port"))
             sent_nics.
Proof.
  apply (live_image_start_nics Demo.api Demo.py_int Demo.py_str Demo.py_repr
      Demo.server_networks Demo.find_resource Demo.shell_find_server
      Demo.shell_find_flavor Demo.shell_find_image Demo.start_args Demo.world0).
  vm_compute. reflexivity.
Defined.

Lemma launch_sends_no_networks_witness :
  let w' := (do_launch Demo.api Demo.py_int Demo.py_str Demo.py_repr
      Demo.server_networks Demo.find_resource Demo.shell_find_server
      Demo.shell_find_flavor Demo.shell_find_image Demo.start_args Demo.world0).2 in
  exists gets1 ident params gets2,
    http_log w' =
    http_log Demo.world0 ++ gets1 ++
      ServerAction "gc_launch" ident (Some (PDict params)) :: gets2 /\
    only_gets gets1 /\ only_gets gets2 /\
    params !! "networks" = None.
Proof.
  apply (launch_sends_no_networks Demo.api Demo.py_int Demo.py_str Demo.py_repr
      Demo.server_networks Demo.find_resource Demo.shell_find_server
      Demo.shell_find_flavor Demo.shell_find_image Demo.start_args Demo.world0).
  vm_compute. reflexivity.
Defined.

Lemma live_image_start_user_data_witness :
  let w' := (do_live_image_start Demo.api Demo.py_int Demo.py_str Demo.py_repr
      Demo.server_networks Demo.find_resource Demo.shell_find_server
      Demo.shell_find_flavor Demo.shell_find_image Demo.start_args Demo.world0).2 in
  exists gets1 ident params gets2,
    http_log w' =
    http_log Demo.world0 ++ gets1 ++
      ServerAction "gc_launch" ident (Some (PDict params)) :: gets2 /\
    only_gets gets1 /\ only_gets gets2 /\
    exists contents,
      files Demo.world0 !! "user-data.sh" = Some contents /\
      params !! "user_data" = Some (PStr (Codec.b64encode contents)).
Proof.
  apply (live_image_start_user_data Demo.api Demo.py_int Demo.py_str Demo.py_repr
      Demo.server_networks Demo.find_resource Demo.shell_find_server
      Demo.shell_find_flavor Demo.shell_find_image Demo.start_args Demo.world0).
  vm_compute. reflexivity.
Defined.

Lemma live_image_start_validates_first_witness :
  exists e gets,
    do_live_image_start Demo.api Demo.py_int Demo.py_str Demo.py_repr
      Demo.server_networks Demo.find_resource Demo.shell_find_server
      Demo.shell_find_flavor Demo.shell_find_image Samples.bad_nic_args Demo.world0 =
    (inl e, sent Demo.world0 gets) /\ only_gets gets.
Proof.
  apply (live_image_start_validates_first Demo.api Demo.py_int Demo.py_str Demo.py_repr
      Demo.server_networks Demo.find_resource Demo.shell_find_server
      Demo.shell_find_flavor Demo.shell_find_image Samples.bad_nic_args
           Demo.world0).
  - reflexivity.
  - right. left. exists (CommandError (nic_err_msg "bogus")).
    vm_compute. reflexivity.
Defined.

Lemma print_server_table_witness :
  let w' := (_print_server Demo.api Demo.py_str Demo.py_repr Demo.server_networks
      Demo.shell_find_server Demo.shell_find_flavor Demo.shell_find_image
               (Samples.server "li-1") false Demo.world0).2 in
  exists info : gmap string pyval,
    stdout w' = stdout Demo.world0 ++ [OutDict info] /\
    is_Some (info !! "flavor") /\ is_Some (info !! "image") /\
    info !! "links" = None /\ info !! "addresses" = None.
Proof.
  apply (print_server_table Demo.api Demo.py_str Demo.py_repr Demo.server_networks
      Demo.shell_find_server Demo.shell_find_flavor Demo.shell_find_image
           (Samples.server "li-1") false Demo.world0).
  vm_compute. reflexivity.
Defined.
